(** * Monitor alert checker: condition evaluation and alert state machine

    A shallow embedding of [backend/app/workers/monitor_alert_checker.py]
    (class [MonitorAlertChecker]) together with the properties of its
    condition evaluator, its cooldown state machine, its boundary formatter
    and its per-rule fault isolation. *)

From Stdlib Require Import ZArith Lia Ascii.
From stdpp Require Import gmap strings list pretty.

Local Open Scope string_scope.
Local Open Scope list_scope.

(** ** Python strings

    A Python [str] is represented by its UTF-8 encoding, one [ascii] per
    byte.  Every pattern the checker searches for is made of ASCII
    characters, so searching the bytes finds exactly the occurrences that
    searching the code points finds. *)

Module PyStr.

Fixpoint startswith (p s : string) : bool :=
  match p, s with
  | EmptyString, _ => true
  | String a p', String b s' => Ascii.eqb a b && startswith p' s'
  | String _ _, EmptyString => false
  end.

Fixpoint drop (n : nat) (s : string) : string :=
  match n, s with
  | O, _ => s
  | S n', String _ s' => drop n' s'
  | S _, EmptyString => EmptyString
  end.

Fixpoint forallb (f : ascii -> bool) (s : string) : bool :=
  match s with
  | EmptyString => true
  | String c s' => f c && forallb f s'
  end.

(** [c in chars], for a one-character [c]. *)
Fixpoint mem (c : ascii) (chars : string) : bool :=
  match chars with
  | EmptyString => false
  | String d chars' => Ascii.eqb c d || mem c chars'
  end.

(** [str.replace(old, new)] for a non-empty [old]: occurrences are found
    left to right and do not overlap.  [skip] counts the bytes of the
    occurrence being replaced that are still to be passed over. *)
Fixpoint replace_from (old new : string) (skip : nat) (s : string) : string :=
  match s with
  | EmptyString => EmptyString
  | String c s' =>
      match skip with
      | S k => replace_from old new k s'
      | O =>
          if startswith old s
          then new +:+ replace_from old new (String.length old - 1) s'
          else String c (replace_from old new 0 s')
      end
  end.

(** With an empty [old] Python writes [new] before every character and
    at the end; no call site of the checker passes an empty [old]. *)
Fixpoint intersperse (new s : string) : string :=
  match s with
  | EmptyString => new
  | String c s' => new +:+ String c (intersperse new s')
  end.

Definition replace (old new s : string) : string :=
  match old with
  | EmptyString => intersperse new s
  | String _ _ => replace_from old new 0 s
  end.

(** Width in bytes of the white-space code point at the head of [s], or
    [0] when [s] does not start with one.  These are the code points for
    which [str.isspace] holds, which is what [\s] matches in a [str]
    pattern: U+0009..U+000D, U+001C..U+0020, U+0085, U+00A0, U+1680,
    U+2000..U+200A, U+2028, U+2029, U+202F, U+205F and U+3000. *)
Definition ws_width (s : string) : nat :=
  match s with
  | EmptyString => 0
  | String a r1 =>
      let x := N_of_ascii a in
      if ((9 <=? x) && (x <=? 13) || (28 <=? x) && (x <=? 32))%N then 1
      else
        match r1 with
        | EmptyString => 0
        | String b r2 =>
            let y := N_of_ascii b in
            if ((x =? 194) && ((y =? 133) || (y =? 160)))%N then 2
            else
              match r2 with
              | EmptyString => 0
              | String c _ =>
                  let z := N_of_ascii c in
                  if ((x =? 225) && (y =? 154) && (z =? 128)
                      || (x =? 226) && (y =? 128)
                         && ((128 <=? z) && (z <=? 138)
                             || (z =? 168) || (z =? 169) || (z =? 175))
                      || (x =? 226) && (y =? 129) && (z =? 159)
                      || (x =? 227) && (y =? 128) && (z =? 128))%N
                  then 3 else 0
              end
        end
  end.

(** Length in bytes of the longest white-space prefix of [s] ([\s*]). *)
Fixpoint ws_run (skip : nat) (s : string) : nat :=
  match s with
  | EmptyString => 0
  | String _ s' =>
      match skip with
      | S k => S (ws_run k s')
      | O =>
          match ws_width s with
          | O => 0
          | S w => S (ws_run w s')
          end
      end
  end.

End PyStr.

(** ** The placeholder pattern [\$\{monitor:([^}]+)\}] *)

Module Placeholder.

Definition opening : string := "${monitor:".

(** The longest prefix of [s] without ["}"]: what the greedy [[^}]+]
    consumes.  What follows it is either the end of the string or a
    ["}"], so giving characters back can never produce a match. *)
Fixpoint take_id (s : string) : string :=
  match s with
  | EmptyString => EmptyString
  | String c s' => if Ascii.eqb c "}" then EmptyString else String c (take_id s')
  end.

(** The pattern anchored at the head of [s]: the captured id. *)
Definition match_at (s : string) : option string :=
  if PyStr.startswith opening s then
    let body := PyStr.drop (String.length opening) s in
    let id := take_id body in
    match id, PyStr.drop (String.length id) body with
    | String _ _, String _ _ => Some id
    | _, _ => None
    end
  else None.

(** Number of bytes matched when the captured id is [id]. *)
Definition match_len (id : string) : nat :=
  String.length opening + String.length id + 1.

(** [re.findall(r'\$\{monitor:([^}]+)\}', s)]: the captured ids of the
    non-overlapping matches, leftmost first. *)
Fixpoint findall_from (skip : nat) (s : string) : list string :=
  match s with
  | EmptyString => []
  | String _ s' =>
      match skip with
      | S k => findall_from k s'
      | O =>
          match match_at s with
          | Some id => id :: findall_from (match_len id - 1) s'
          | None => findall_from 0 s'
          end
      end
  end.

Definition findall (s : string) : list string := findall_from 0 s.

(** [re.sub(r'\$\{monitor:[^}]+\}\s*', '', s)]. *)
Fixpoint strip_from (skip : nat) (s : string) : string :=
  match s with
  | EmptyString => EmptyString
  | String c s' =>
      match skip with
      | S k => strip_from k s'
      | O =>
          match match_at s with
          | Some id =>
              let n := match_len id in
              strip_from (n + PyStr.ws_run 0 (PyStr.drop n s) - 1) s'
          | None => String c (strip_from 0 s')
          end
      end
  end.

Definition strip (s : string) : string := strip_from 0 s.

(** The f-string [f'${{monitor:{monitor_id}}}']. *)
Definition render (monitor_id : string) : string :=
  opening +:+ monitor_id +:+ "}".

End Placeholder.

(** ** The float comparison of the cooldown check

    [timedelta.total_seconds()] is the true division of the whole number
    of microseconds by [10**6]: the binary64 number nearest to the
    quotient, ties to even.  Python compares a float with an int by
    value.  The durations a [timedelta] can hold stay far from the
    subnormal and the infinite range. *)

Module PyFloat.

Local Open Scope Z_scope.

(** The power of two [2^k] by which [n/d] is scaled so that its integer
    part has 53 bits: [2^52 <= n * 2^k / d < 2^53], for [n, d > 0]. *)
Definition binary64_scale (n d : Z) : Z :=
  let k := 52 + Z.log2 d - Z.log2 n in
  if n * 2 ^ Z.max 0 k <? 2 ^ 52 * (d * 2 ^ Z.max 0 (- k)) then k + 1 else k.

(** The significand of the binary64 number nearest to [n/d], ties to
    even, at the scale [k]. *)
Definition binary64_significand (n d k : Z) : Z :=
  let num := n * 2 ^ Z.max 0 k in
  let den := d * 2 ^ Z.max 0 (- k) in
  let m := num / den in
  let r := num mod den in
  if 2 * r <? den then m
  else if den <? 2 * r then m + 1
  else if Z.even m then m else m + 1.

(** [n / d < c] and [n / d > c] for ints [n, d > 0] and [c]. *)
Definition true_div_lt (n d c : Z) : bool :=
  let k := binary64_scale n d in
  binary64_significand n d k * 2 ^ Z.max 0 (- k) <? c * 2 ^ Z.max 0 k.

Definition true_div_gt (n d c : Z) : bool :=
  let k := binary64_scale n d in
  c * 2 ^ Z.max 0 k <? binary64_significand n d k * 2 ^ Z.max 0 (- k).

(** [timedelta(microseconds=us).total_seconds() < cooldown]. *)
Definition total_seconds_lt (us cooldown : Z) : bool :=
  match us ?= 0 with
  | Eq => 0 <? cooldown
  | Gt => true_div_lt us 1000000 cooldown
  | Lt => true_div_gt (- us) 1000000 (- cooldown)
  end.

(** The durations for which the rounding of [total_seconds] cannot change
    how it compares with an int: from 0 to 2^34 seconds, in microseconds. *)
Definition exact_span (us : Z) : Prop := 0 <= us < 2 ^ 34 * 1000000.

End PyFloat.

(** ** Exceptions, observations and the checker's monad *)

(** A raised Python exception, by its message. *)
Definition exn : Type := string.

Inductive result (A : Type) : Type :=
| Ok (a : A)
| Raise (e : exn).

Arguments Ok {A} a.
Arguments Raise {A} e.

(** What the interpreter contributes: the [float] held by
    [MonitorValue.value] with [str(v)] and [f"{v:.{n}f}"], and the builtin
    [eval] followed by [bool].  The strings that reach [eval] can name no
    variable, so its outcome is a function of the string alone. *)
Class PyRuntime (Value : Type) : Type := {
  py_str : Value -> string;
  py_format_f : Value -> Z -> result string;
  py_eval : string -> result bool
}.

Inductive log_level : Type := DEBUG | INFO | WARNING | ERROR.

(** One constructor per [logger] call of the module, with the values its
    message interpolates. *)
Inductive log_message : Type :=
| LogChecking (rules : nat)
| LogNotConfigured
| LogCleared (name : string)
| LogErrorCheckingRule (name : string) (e : exn)
| LogErrorInChecker (e : exn)
| LogNoReferences (condition : string)
| LogMonitorNotFound (monitor_id : string)
| LogNoValue (monitor_id : string)
| LogUnsafeCondition (expression : string)
| LogErrorEvaluating (expression : string) (e : exn)
| LogInCooldown (name : string) (elapsed_us cooldown : Z)
| LogTriggered (name : string)
| LogSent (name : string)
| LogSendFailed (name : string)
| LogErrorSending (name : string) (e : exn).

Section Checker.

Context {RuleId : Type} `{Countable RuleId}.
Context {Value : Type} `{PyRuntime Value}.

(** *** Data model *)

Record AlertRule : Type := {
  rule_id : RuleId;
  rule_name : string;
  condition : string;
  enabled : bool;
  cooldown_seconds : Z;
  level : string
}.

Record Monitor : Type := {
  monitor_name : string;
  unit : option string;
  decimal_places : Z
}.

Record MonitorValue : Type := {
  value : option Value;
  computed_at : Z
}.

(** The datastore as one cycle sees it: the row [first()] returns for a
    monitor id, the row the [computed_at]-descending query returns first,
    and the [AlertRule] table. *)
Record Db : Type := {
  query_monitor : string -> option Monitor;
  query_latest_value : string -> option MonitorValue;
  query_alert_rules : list AlertRule
}.

Record PushoverService : Type := {
  is_configured : bool;
  send_alert : string -> string -> string -> string -> result bool
}.

(** The collaborators of one cycle.  [utcnow r] is what
    [datetime.utcnow()] reads while rule [r] is handled, in microseconds. *)
Record Env : Type := {
  db : Db;
  pushover_service : PushoverService;
  utcnow : RuleId -> Z
}.

(** An entry of [self.alert_states]: a dict with the keys
    ['last_notified'] and ['is_active'], either of which [.get] may find
    missing. *)
Record AlertState : Type := {
  last_notified : option Z;
  is_active : option bool
}.

(** The [{}] default of [self.alert_states.get(rule.id, {})]. *)
Definition empty_dict : AlertState :=
  {| last_notified := None; is_active := None |}.

Inductive event : Type :=
| Log (lvl : log_level) (msg : log_message)
| EvaluateCondition (rule : RuleId)
| Eval (expression : string)
| SendAlert (rule : RuleId) (message title lvl url : string)
| DbClose.

(** *** State, trace and exceptions

    A computation reads and writes [self.alert_states], appends to the
    trace of observations, and returns or raises.  What was written and
    observed before a [raise] stays. *)
Definition M (A : Type) : Type :=
  gmap RuleId AlertState -> result A * gmap RuleId AlertState * list event.

Definition ret {A} (a : A) : M A := fun st => (Ok a, st, []).

Definition bind {A B} (m : M A) (f : A -> M B) : M B := fun st =>
  match m st with
  | (Ok a, st', tr) => let '(r, st'', tr') := f a st' in (r, st'', tr ++ tr')
  | (Raise e, st', tr) => (Raise e, st', tr)
  end.

Definition lift {A} (r : result A) : M A := fun st => (r, st, []).

Definition raise {A} (e : exn) : M A := lift (Raise e).

Definition emit (ev : event) : M ()%type := fun st => (Ok tt, st, [ev]).

Definition log (lvl : log_level) (msg : log_message) : M ()%type := emit (Log lvl msg).

Definition get_states : M (gmap RuleId AlertState) := fun st => (Ok st, st, []).

Definition put_states (st : gmap RuleId AlertState) : M ()%type := fun _ => (Ok tt, st, []).

(** [try: m  except Exception as e: handler e]. *)
Definition try_except {A} (m : M A) (handler : exn -> M A) : M A := fun st =>
  match m st with
  | (Raise e, st', tr) => let '(r, st'', tr') := handler e st' in (r, st'', tr ++ tr')
  | done => done
  end.

(** [try: m  finally: cleanup]. *)
Definition try_finally {A} (m : M A) (cleanup : M ()%type) : M A := fun st =>
  let '(r, st', tr) := m st in
  match cleanup st' with
  | (Ok _, st'', tr') => (r, st'', tr ++ tr')
  | (Raise e, st'', tr') => (Raise e, st'', tr ++ tr')
  end.

Notation "x <- m ;; k" := (bind m (fun x => k))
  (at level 100, m at next level, right associativity).
Notation "m ;; k" := (bind m (fun _ => k))
  (at level 100, right associativity).

(** [for x in l: body x]; a [raise] in the body leaves the loop. *)
Fixpoint for_each {A} (body : A -> M ()%type) (l : list A) : M ()%type :=
  match l with
  | [] => ret tt
  | x :: l' => body x;; for_each body l'
  end.

(** *** [_evaluate_condition] *)

Definition safe_chars : string := "0123456789.><=|& -or".

Definition operators : list string :=
  ["||"; "&&"; ">="; "<="; "=="; "!="; ">"; "<"; " or "; " and "].

(** The loop over [operators] that builds [check_str]. *)
Definition strip_operators (s : string) : string :=
  fold_left (fun check_str op => PyStr.replace op "" check_str) operators s.

(** [all(c in safe_chars for c in s)]. *)
Definition all_safe (s : string) : bool :=
  PyStr.forallb (fun c => PyStr.mem c safe_chars) s.

(** The two lines that rewrite the logical operators before [eval]. *)
Definition normalize_operators (s : string) : string :=
  let s := PyStr.replace " || " " or " (PyStr.replace " or " " or " s) in
  PyStr.replace " && " " and " (PyStr.replace " and " " and " s).

(** The characters a validated candidate can hold once the operators are
    normalised: those of [safe_chars] and the letters of ["and"]. *)
Definition eval_alphabet : string := "0123456789.><=|& -orand".

(** The loop over [monitor_refs]; [None] is its [return False]. *)
Fixpoint substitute_refs (env : Env) (monitor_refs : list string)
    (evaluated_condition : string) : M (option string) :=
  match monitor_refs with
  | [] => ret (Some evaluated_condition)
  | monitor_id :: rest =>
      match query_monitor (db env) monitor_id with
      | None =>
          log WARNING (LogMonitorNotFound monitor_id);;
          ret None
      | Some monitor =>
          match query_latest_value (db env) monitor_id with
          | Some {| value := Some v |} =>
              substitute_refs env rest
                (PyStr.replace (Placeholder.render monitor_id) (py_str v)
                   evaluated_condition)
          | _ =>
              log DEBUG (LogNoValue monitor_id);;
              ret None
          end
      end
  end.

(** The [try] block that validates and evaluates the candidate.  Only
    [eval] can raise in it, so the handler always sees the reassigned
    [evaluated_condition]. *)
Definition evaluate_expression (evaluated_condition : string) : M bool :=
  try_except
    (let check_str := strip_operators evaluated_condition in
     if negb (all_safe evaluated_condition) then
       log ERROR (LogUnsafeCondition evaluated_condition);;
       ret false
     else
       let evaluated_condition := normalize_operators evaluated_condition in
       emit (Eval evaluated_condition);;
       lift (py_eval evaluated_condition))
    (fun e =>
       log ERROR (LogErrorEvaluating (normalize_operators evaluated_condition) e);;
       ret false).

Definition evaluate_condition (env : Env) (rule : AlertRule) : M bool :=
  emit (EvaluateCondition (rule_id rule));;
  let monitor_refs := Placeholder.findall (condition rule) in
  match monitor_refs with
  | [] =>
      log WARNING (LogNoReferences (condition rule));;
      ret false
  | _ :: _ =>
      substituted <- substitute_refs env monitor_refs (condition rule);;
      match substituted with
      | None => ret false
      | Some evaluated_condition => evaluate_expression evaluated_condition
      end
  end.

(** *** [_parse_condition_to_boundary] and [_format_alert_message] *)

Definition parse_condition_to_boundary (condition : string) : string :=
  let simplified := Placeholder.strip condition in
  let simplified := PyStr.replace " or " " OR " simplified in
  let simplified := PyStr.replace " and " " AND " simplified in
  let simplified := PyStr.replace "||" " OR " simplified in
  PyStr.replace "&&" " AND " simplified.

Definition newline : string := String "010" EmptyString.

(** What [if monitor.unit: value_str += monitor.unit] appends: nothing
    for [None] and for the empty string. *)
Definition unit_suffix (m : Monitor) : string :=
  match unit m with
  | Some u => u
  | None => EmptyString
  end.

Definition format_alert_message (env : Env) (rule : AlertRule)
    : result (string * string) :=
  match Placeholder.findall (condition rule) with
  | [] => Ok ("Alert", "Condition: " +:+ condition rule)
  | monitor_id :: _ =>
      match query_monitor (db env) monitor_id with
      | None => Ok ("Alert", "Condition: " +:+ condition rule)
      | Some monitor =>
          match query_latest_value (db env) monitor_id with
          | Some {| value := Some v |} =>
              match py_format_f v (decimal_places monitor) with
              | Raise e => Raise e
              | Ok value_str =>
                  let value_str := value_str +:+ unit_suffix monitor in
                  let boundary := parse_condition_to_boundary (condition rule) in
                  Ok (monitor_name monitor,
                      "当前: " +:+ value_str +:+ newline +:+ "边界: " +:+ boundary)
              end
          | _ => Ok (monitor_name monitor, "No value available")
          end
      end
  end.

(** *** [_handle_triggered_alert] *)

Definition monitors_url : string := "https://distill.baa.one/monitors".

(** [(now - last_notified).total_seconds() < rule.cooldown_seconds]: the
    difference of two [datetime]s is a whole number of microseconds. *)
Definition in_cooldown (now last : Z) (cooldown : Z) : bool :=
  PyFloat.total_seconds_lt (now - last) cooldown.

Definition handle_triggered_alert (env : Env) (rule : AlertRule) : M ()%type :=
  let now := utcnow env (rule_id rule) in
  alert_states <- get_states;;
  let rule_state := default empty_dict (alert_states !! rule_id rule) in
  let notify : M ()%type :=
    formatted <- lift (format_alert_message env rule);;
    let '(title, message) := formatted in
    log INFO (LogTriggered (rule_name rule));;
    try_except
      (emit (SendAlert (rule_id rule) message title (level rule) monitors_url);;
       sent <- lift (send_alert (pushover_service env) message title
                       (level rule) monitors_url);;
       if sent : bool then
         log INFO (LogSent (rule_name rule));;
         alert_states <- get_states;;
         put_states
           (<[rule_id rule :=
                {| last_notified := Some now; is_active := Some true |}]>
              alert_states)
       else
         log WARNING (LogSendFailed (rule_name rule)))
      (fun e => log ERROR (LogErrorSending (rule_name rule) e)) in
  match last_notified rule_state with
  | Some last =>
      if in_cooldown now last (cooldown_seconds rule) then
        log DEBUG (LogInCooldown (rule_name rule) (now - last)
                     (cooldown_seconds rule))
      else notify
  | None => notify
  end.

(** *** [run] *)

(** The [else] branch of the loop body: clear a previously active alert. *)
Definition clear_if_active (rule : AlertRule) : M ()%type :=
  alert_states <- get_states;;
  match alert_states !! rule_id rule with
  | Some entry =>
      match is_active entry with
      | Some true =>
          put_states
            (<[rule_id rule :=
                 {| last_notified := last_notified entry;
                    is_active := Some false |}]> alert_states);;
          log INFO (LogCleared (rule_name rule))
      | _ => ret tt
      end
  | None => ret tt
  end.

(** The body of the inner [try]. *)
Definition check_rule (env : Env) (rule : AlertRule) : M ()%type :=
  is_triggered <- evaluate_condition env rule;;
  if is_triggered : bool then handle_triggered_alert env rule
  else clear_if_active rule.

(** One iteration of the loop, with its [except ... continue]. *)
Definition check_rule_guarded (env : Env) (rule : AlertRule) : M ()%type :=
  try_except (check_rule env rule)
    (fun e => log ERROR (LogErrorCheckingRule (rule_name rule) e)).

Definition enabled_rules (env : Env) : list AlertRule :=
  filter (fun r => enabled r = true) (query_alert_rules (db env)).

Definition run (env : Env) : M ()%type :=
  try_finally
    (try_except
       (let alert_rules := enabled_rules env in
        log INFO (LogChecking (length alert_rules));;
        if negb (is_configured (pushover_service env)) then
          log DEBUG LogNotConfigured
        else
          for_each (check_rule_guarded env) alert_rules)
       (fun e => log ERROR (LogErrorInChecker e);; raise e))
    (emit DbClose).

(** *** Reading a run *)

Definition outcome {A} (x : result A * gmap RuleId AlertState * list event)
    : result A := x.1.1.

Definition states_after {A}
    (x : result A * gmap RuleId AlertState * list event)
    : gmap RuleId AlertState := x.1.2.

Definition trace_of {A} (x : result A * gmap RuleId AlertState * list event)
    : list event := x.2.

(** The strings handed to [eval], in order. *)
Definition evals (tr : list event) : list string :=
  omap (fun ev => match ev with Eval e => Some e | _ => None end) tr.

(** The rules whose condition evaluation was entered, in order. *)
Definition evaluated (tr : list event) : list RuleId :=
  omap (fun ev => match ev with EvaluateCondition r => Some r | _ => None end) tr.

(** The [send_alert] calls, in order. *)
Definition sends (tr : list event) : list event :=
  omap (fun ev => match ev with SendAlert _ _ _ _ _ => Some ev | _ => None end) tr.

(** The [send_alert] calls made for rule [r]. *)
Definition sends_for (r : RuleId) (tr : list event) : list event :=
  omap (fun ev =>
          match ev with
          | SendAlert r' _ _ _ _ => if decide (r' = r) then Some ev else None
          | _ => None
          end) tr.

(** No monitor row, no sample, or a sample whose value is [None]. *)
Definition no_data (env : Env) (m : string) : Prop :=
  query_monitor (db env) m = None \/
  query_latest_value (db env) m = None \/
  exists sample, query_latest_value (db env) m = Some sample /\ value sample = None.

(** A trace of log records only. *)
Definition only_logs (tr : list event) : Prop :=
  Forall (fun ev => match ev with Log _ _ => True | _ => False end) tr.

(** The timestamp recorded for rule [r], if any. *)
Definition last_notified_of (st : gmap RuleId AlertState) (r : RuleId)
    : option Z := st !! r ≫= last_notified.

(** Whether the cooldown check of [_handle_triggered_alert] lets the rule
    through. *)
Definition eligible (env : Env) (rule : AlertRule)
    (st : gmap RuleId AlertState) : Prop :=
  match last_notified_of st (rule_id rule) with
  | Some last =>
      in_cooldown (utcnow env (rule_id rule)) last (cooldown_seconds rule) = false
  | None => True
  end.

(** [send_alert] was called for rule [r] in [tr] and accepted the message. *)
Definition dispatched (env : Env) (r : RuleId) (tr : list event) : Prop :=
  exists message title lvl url,
    SendAlert r message title lvl url ∈ tr /\
    send_alert (pushover_service env) message title lvl url = Ok true.

(** The ways one pass through the body of the inner [try] can end, after
    the evaluator has left the trace [tr]. *)
Inductive check_rule_ends (env : Env) (rule : AlertRule)
    (st : gmap RuleId AlertState) (tr : list event)
    : result ()%type * gmap RuleId AlertState * list event -> Prop :=
| EndsQuiet tr' :
    only_logs tr' ->
    check_rule_ends env rule st tr (Ok tt, st, tr ++ tr')
| EndsCleared last :
    st !! rule_id rule = Some {| last_notified := last; is_active := Some true |} ->
    check_rule_ends env rule st tr
      (Ok tt,
       <[rule_id rule := {| last_notified := last; is_active := Some false |}]> st,
       tr ++ [Log INFO (LogCleared (rule_name rule))])
| EndsFormatRaised e :
    check_rule_ends env rule st tr (Raise e, st, tr ++ [])
| EndsSent title message :
    send_alert (pushover_service env) message title (level rule) monitors_url
      = Ok true ->
    check_rule_ends env rule st tr
      (Ok tt,
       <[rule_id rule := {| last_notified := Some (utcnow env (rule_id rule));
                            is_active := Some true |}]> st,
       tr ++ [Log INFO (LogTriggered (rule_name rule));
              SendAlert (rule_id rule) message title (level rule) monitors_url;
              Log INFO (LogSent (rule_name rule))])
| EndsNotSent title message lvl msg :
    check_rule_ends env rule st tr
      (Ok tt, st,
       tr ++ [Log INFO (LogTriggered (rule_name rule));
              SendAlert (rule_id rule) message title (level rule) monitors_url;
              Log lvl msg]).

(** The candidate expression of a rule: what the substitution loop hands
    to the validation step, when the evaluator gets that far. *)
Definition candidate_expression (env : Env) (rule : AlertRule) : option string :=
  match Placeholder.findall (condition rule) with
  | [] => None
  | refs =>
      match outcome (substitute_refs env refs (condition rule) ∅) with
      | Ok candidate => candidate
      | Raise _ => None
      end
  end.

(** The alert states after a sequence of cycles, with each cycle's trace. *)
Fixpoint run_cycles (envs : list Env) (st : gmap RuleId AlertState)
    : gmap RuleId AlertState * list (Env * list event) :=
  match envs with
  | [] => (st, [])
  | env :: rest =>
      let x := run env st in
      let '(st', history) := run_cycles rest (states_after x) in
      (st', (env, trace_of x) :: history)
  end.

End Checker.

Arguments AlertRule : clear implicits.
Arguments Monitor : clear implicits.
Arguments MonitorValue : clear implicits.
Arguments Db : clear implicits.
Arguments Env : clear implicits.
Arguments event : clear implicits.

(** ** A runtime for closed examples

    Whole-number floats, as [str] and the [f] format print them (below
    1e16 in magnitude), and [eval] on the expressions the examples use. *)

Module Examples.

Definition str_whole (v : Z) : string := pretty v +:+ ".0".

Fixpoint zeros (n : nat) : string :=
  match n with
  | O => EmptyString
  | S n' => String "0" (zeros n')
  end.

Definition format_whole (v : Z) (places : Z) : result string :=
  if (places <? 0)%Z then Raise "ValueError: Format specifier missing precision"
  else if (places =? 0)%Z then Ok (pretty v)
  else Ok (pretty v +:+ "." +:+ zeros (Z.to_nat places)).

Definition eval_table : list (string * bool) :=
  [("62.0 > 50 or 62.0 < 30", true);
   ("40.0 > 50 or 40.0 < 30", false);
   ("62.0 > 50", true);
   ("40.0 > 50", false);
   ("62.0 > 50 and 62.0 < 30", false)].

Fixpoint eval_lookup (table : list (string * bool)) (e : string) : result bool :=
  match table with
  | [] => Raise "SyntaxError: invalid syntax"
  | (k, b) :: table' => if String.eqb k e then Ok b else eval_lookup table' e
  end.

#[export] Instance runtime : PyRuntime Z := {|
  py_str := str_whole;
  py_format_f := format_whole;
  py_eval := eval_lookup eval_table
|}.

Definition band : string := "${monitor:m1} > 50 or ${monitor:m1} < 30".

Definition rule (id : string) (cond : string) (cooldown : Z) : AlertRule string :=
  {| rule_id := id; rule_name := "rule " +:+ id; condition := cond;
     enabled := true; cooldown_seconds := cooldown; level := "high" |}.

Definition monitor (places : Z) : Monitor :=
  {| monitor_name := "DRIFT"; unit := Some "%"; decimal_places := places |}.

(** A datastore with the monitors [m1] (latest value [v1]) and [bad]
    (latest value 62, a negative [decimal_places]). *)
Definition store (v1 : option Z) (rules : list (AlertRule string)) : Db string Z :=
  {| query_monitor := fun id =>
       if String.eqb id "m1" then Some (monitor 1)
       else if String.eqb id "bad" then Some (monitor (-1))
       else None;
     query_latest_value := fun id =>
       if String.eqb id "m1" then Some {| value := v1; computed_at := 0 |}
       else if String.eqb id "bad" then Some {| value := Some 62%Z; computed_at := 0 |}
       else None;
     query_alert_rules := rules |}.

Definition transport (accepts : result bool) : PushoverService :=
  {| is_configured := true; send_alert := fun _ _ _ _ => accepts |}.

Definition world (v1 : option Z) (rules : list (AlertRule string))
    (accepts : result bool) (now : Z) : Env string Z :=
  {| db := store v1 rules; pushover_service := transport accepts;
     utcnow := fun _ => now |}.

Definition seconds (n : Z) : Z := (n * 1000000)%Z.

(** Alert states in which rule [r1] was last notified at [last]. *)
Definition notified (last : Z) (active : bool) : gmap string AlertState :=
  {[ "r1" := {| last_notified := Some last; is_active := Some active |} ]}.

(** The notification for [band] at the value 62. *)
Definition band_body : string :=
  "当前: 62.0%" +:+ newline +:+ "边界: > 50 OR < 30".

Definition band_alert : event string :=
  SendAlert "r1" band_body "DRIFT" "high" monitors_url.

Definition format_error : exn := "ValueError: Format specifier missing precision".

(** A world whose transport is not configured. *)
Definition offline_world (rules : list (AlertRule string)) : Env string Z :=
  {| db := store (Some 62%Z) rules;
     pushover_service :=
       {| is_configured := false; send_alert := fun _ _ _ _ => Ok true |};
     utcnow := fun _ => 0%Z |}.

Definition disabled_rule : AlertRule string :=
  {| rule_id := "r9"; rule_name := "rule r9"; condition := band;
     enabled := false; cooldown_seconds := 60; level := "high" |}.

(** A rule whose message cannot be formatted, followed by a sound one. *)
Definition two_rules : list (AlertRule string) :=
  [rule "r0" "${monitor:bad} > 50" 60; rule "r1" band 60].

End Examples.

(** ** The float comparison on ordinary durations *)

Module PyFloatFacts.

Local Open Scope Z_scope.

Lemma binary64_scale_seconds (us : Z) :
  0 < us < 2 ^ 34 * 1000000 -> 19 <= PyFloat.binary64_scale us 1000000.
Proof.
  intros [Hpos Hlt]. unfold PyFloat.binary64_scale.
  assert (Z.log2 us < 54) as Hlog.
  { apply Z.log2_lt_pow2; [done|]. lia. }
  change (Z.log2 1000000) with 19.
  set (k := 52 + 19 - Z.log2 us). assert (18 <= k) as Hk by lia.
  rewrite (Z.max_r 0 k), (Z.max_l 0 (- k)) by lia.
  destruct (Z.ltb_spec (us * 2 ^ k) (2 ^ 52 * (1000000 * 2 ^ 0))) as [_|Hge]; [lia|].
  destruct (Z.eq_dec k 18) as [->|]; [|lia].
  exfalso. lia.
Qed.

(** Below 2^34 seconds two neighbouring binary64 numbers are less than a
    microsecond apart, and every whole number of seconds is one of them. *)
Lemma true_div_lt_seconds (us c : Z) :
  0 < us < 2 ^ 34 * 1000000 ->
  PyFloat.true_div_lt us 1000000 c = (us <? c * 1000000).
Proof.
  intros Hus. pose proof (binary64_scale_seconds us Hus) as Hk.
  unfold PyFloat.true_div_lt, PyFloat.binary64_significand. cbv zeta.
  set (k := PyFloat.binary64_scale us 1000000) in *.
  rewrite (Z.max_r 0 k), (Z.max_l 0 (- k)) by lia.
  change (2 ^ 0) with 1. rewrite !Z.mul_1_r.
  assert (524288 <= 2 ^ k) as HP.
  { change 524288 with (2 ^ 19). apply Z.pow_le_mono_r; lia. }
  set (P := 2 ^ k) in *.
  pose proof (Z.div_mod (us * P) 1000000 ltac:(lia)) as Hdiv.
  pose proof (Z.mod_pos_bound (us * P) 1000000 ltac:(lia)) as Hr.
  set (m := us * P / 1000000) in *. set (r := (us * P) mod 1000000) in *.
  destruct (Z.ltb_spec us (c * 1000000)) as [Hlt|Hge].
  - apply Z.ltb_lt.
    assert (m * 1000000 + r + P <= c * P * 1000000) as Hroom by nia.
    destruct (Z.ltb_spec (2 * r) 1000000); [nia|].
    destruct (Z.ltb_spec 1000000 (2 * r)); [nia|].
    destruct (Z.even m); nia.
  - apply Z.ltb_ge.
    assert (c * P <= m) as Hm by nia.
    destruct (Z.ltb_spec (2 * r) 1000000); [lia|].
    destruct (Z.ltb_spec 1000000 (2 * r)); [lia|].
    destruct (Z.even m); lia.
Qed.

Lemma total_seconds_lt_exact (us c : Z) :
  PyFloat.exact_span us -> PyFloat.total_seconds_lt us c = (us <? c * 1000000).
Proof.
  intros [Hpos Hlt]. unfold PyFloat.total_seconds_lt.
  destruct (Z.compare_spec us 0) as [->|Hneg|Hgt]; [|lia|].
  - destruct (Z.ltb_spec 0 c), (Z.ltb_spec 0 (c * 1000000)); lia.
  - apply true_div_lt_seconds. lia.
Qed.

End PyFloatFacts.

(** ** Properties *)

Section Properties.

Context {RuleId : Type} `{Countable RuleId}.
Context {Value : Type} `{PyRuntime Value}.

Implicit Types (env : Env RuleId Value) (rule : AlertRule RuleId).
Implicit Types (st : gmap RuleId AlertState) (tr : list (event RuleId)).

(** *** Traces *)

Lemma evals_app tr1 tr2 : evals (tr1 ++ tr2) = evals tr1 ++ evals tr2.
Proof. apply omap_app. Qed.

Lemma sends_app tr1 tr2 : sends (tr1 ++ tr2) = sends tr1 ++ sends tr2.
Proof. apply omap_app. Qed.

Lemma sends_for_app r tr1 tr2 :
  sends_for r (tr1 ++ tr2) = sends_for r tr1 ++ sends_for r tr2.
Proof. apply omap_app. Qed.

Lemma evaluated_app tr1 tr2 :
  evaluated (tr1 ++ tr2) = evaluated tr1 ++ evaluated tr2.
Proof. apply omap_app. Qed.

Lemma only_logs_silent tr :
  only_logs tr -> evals tr = [] /\ sends tr = [] /\ evaluated tr = [].
Proof.
  induction 1 as [|ev tr Hev _ IH]; [done|].
  destruct ev; done.
Qed.

Lemma sends_for_nil_of_sends r tr : sends tr = [] -> sends_for r tr = [].
Proof.
  induction tr as [|ev tr IH]; [done|].
  destruct ev; simpl; try exact IH. done.
Qed.

(** *** The evaluator neither raises nor touches the alert states *)

Lemma substitute_refs_run env refs e :
  exists r tr, only_logs tr /\
    forall st, substitute_refs env refs e st = (Ok r, st, tr).
Proof.
  revert e. induction refs as [|m refs IH]; intros e; simpl.
  - exists (Some e), []. split; [constructor | done].
  - destruct (query_monitor (db env) m) as [mon|].
    + destruct (query_latest_value (db env) m) as [[[v|] t]|].
      * apply IH.
      * exists None, [Log DEBUG (LogNoValue m)].
        split; [by repeat constructor | done].
      * exists None, [Log DEBUG (LogNoValue m)].
        split; [by repeat constructor | done].
    + exists None, [Log WARNING (LogMonitorNotFound m)].
      split; [by repeat constructor | done].
Qed.

Lemma evaluate_expression_run (e : string) :
  exists b tr,
    sends tr = [] /\ evaluated tr = [] /\
    (all_safe e = false -> b = false /\ evals tr = []) /\
    (all_safe e = true -> evals tr = [normalize_operators e]) /\
    forall st, evaluate_expression (RuleId := RuleId) e st = (Ok b, st, tr).
Proof.
  unfold evaluate_expression, try_except, bind, emit, lift, log, ret.
  destruct (all_safe e) eqn:Hsafe; simpl.
  - destruct (py_eval (normalize_operators e)) as [b|x] eqn:Hev.
    + exists b, [Eval (normalize_operators e)]. by rewrite ?Hev.
    + exists false,
        [Eval (normalize_operators e);
         Log ERROR (LogErrorEvaluating (normalize_operators e) x)].
      by rewrite ?Hev.
  - exists false, [Log ERROR (LogUnsafeCondition e)]. done.
Qed.

Lemma evaluate_condition_run env rule :
  exists b tr,
    sends tr = [] /\ evaluated tr = [rule_id rule] /\
    forall st, evaluate_condition env rule st = (Ok b, st, tr).
Proof.
  unfold evaluate_condition.
  destruct (Placeholder.findall (condition rule)) as [|m refs] eqn:Hrefs.
  - exists false,
      [EvaluateCondition (rule_id rule);
       Log WARNING (LogNoReferences (condition rule))]. done.
  - destruct (substitute_refs_run env (m :: refs) (condition rule))
      as (r & tr1 & Hlogs & Hrun).
    apply only_logs_silent in Hlogs as (_ & Hs1 & He1).
    destruct r as [e|].
    + destruct (evaluate_expression_run e) as (b & tr2 & Hs2 & He2 & _ & _ & Hrun2).
      exists b, (EvaluateCondition (rule_id rule) :: tr1 ++ tr2).
      split; [|split].
      * simpl. by rewrite sends_app, Hs1, Hs2.
      * simpl. by rewrite evaluated_app, He1, He2.
      * intros st. unfold bind, emit. rewrite Hrun, Hrun2. done.
    + exists false, (EvaluateCondition (rule_id rule) :: tr1 ++ []).
      split; [|split].
      * simpl. by rewrite sends_app, Hs1.
      * simpl. by rewrite evaluated_app, He1.
      * intros st. unfold bind, emit, ret. rewrite Hrun. done.
Qed.

Lemma outcome_evaluate_condition env rule st b :
  outcome (evaluate_condition env rule st) = Ok b ->
  exists tr,
    sends tr = [] /\ evaluated tr = [rule_id rule] /\
    forall st', evaluate_condition env rule st' = (Ok b, st', tr).
Proof.
  destruct (evaluate_condition_run env rule) as (b' & tr & Hs & He & Hrun).
  rewrite Hrun. unfold outcome. simpl. intros [= ->]. by exists tr.
Qed.

(** *** Validation *)

Lemma all_safe_complete (s : string) (c : ascii) :
  PyStr.mem c s = true -> PyStr.mem c safe_chars = false -> all_safe s = false.
Proof.
  unfold all_safe. intros Hmem Hunsafe.
  induction s as [|d s IH]; cbn [PyStr.forallb PyStr.mem] in *; [done|].
  destruct (Ascii.eqb c d) eqn:Hcd.
  - apply Ascii.eqb_eq in Hcd as <-. by rewrite Hunsafe.
  - rewrite (IH Hmem). apply andb_false_r.
Qed.

Lemma candidate_expression_run env rule candidate :
  candidate_expression env rule = Some candidate ->
  exists m refs tr,
    Placeholder.findall (condition rule) = m :: refs /\ only_logs tr /\
    forall st,
      substitute_refs env (m :: refs) (condition rule) st = (Ok (Some candidate), st, tr).
Proof.
  unfold candidate_expression.
  destruct (Placeholder.findall (condition rule)) as [|m refs]; [done|].
  destruct (substitute_refs_run env (m :: refs) (condition rule))
    as (r & tr & Hlogs & Hrun).
  rewrite Hrun. unfold outcome. simpl. intros ->. by exists m, refs, tr.
Qed.

(** *** Missing data *)

Lemma substitute_refs_no_data env refs m e st :
  m ∈ refs -> no_data env m ->
  outcome (substitute_refs env refs e st) = Ok None.
Proof.
  intros Hin Hno. revert e.
  induction refs as [|m' refs IH]; intros e; [by apply elem_of_nil in Hin|].
  simpl.
  destruct (query_monitor (db env) m') as [mon|] eqn:Hmon; [|done].
  destruct (query_latest_value (db env) m') as [[[v|] t]|] eqn:Hval; [|done|done].
  apply elem_of_cons in Hin as [->|Hin]; [|by apply IH].
  destruct Hno as [Hno|[Hno|(sample & Hs & Hnone)]]; [congruence|congruence|].
  rewrite Hval in Hs. injection Hs as <-. done.
Qed.

(** *** The state machine, case by case *)

Lemma last_notified_default st r :
  last_notified (default empty_dict (st !! r)) = last_notified_of st r.
Proof. unfold last_notified_of. by destruct (st !! r). Qed.

Lemma handle_suppressed env rule st last :
  last_notified_of st (rule_id rule) = Some last ->
  in_cooldown (utcnow env (rule_id rule)) last (cooldown_seconds rule) = true ->
  handle_triggered_alert env rule st =
    (Ok tt, st,
     [Log DEBUG (LogInCooldown (rule_name rule)
                   (utcnow env (rule_id rule) - last) (cooldown_seconds rule))]).
Proof.
  intros Hlast Hcool. unfold handle_triggered_alert, bind, get_states.
  cbv zeta. rewrite last_notified_default, Hlast, Hcool. done.
Qed.

Lemma handle_format_raises env rule st e :
  eligible env rule st ->
  format_alert_message env rule = Raise e ->
  handle_triggered_alert env rule st = (Raise e, st, []).
Proof.
  intros Hel Hfmt. unfold handle_triggered_alert, bind, get_states, lift.
  cbv zeta. rewrite last_notified_default, Hfmt. unfold eligible in Hel.
  destruct (last_notified_of st (rule_id rule)); [rewrite Hel|]; done.
Qed.

Lemma handle_sent env rule st title message :
  eligible env rule st ->
  format_alert_message env rule = Ok (title, message) ->
  send_alert (pushover_service env) message title (level rule) monitors_url
    = Ok true ->
  handle_triggered_alert env rule st =
    (Ok tt,
     <[rule_id rule := {| last_notified := Some (utcnow env (rule_id rule));
                          is_active := Some true |}]> st,
     [Log INFO (LogTriggered (rule_name rule));
      SendAlert (rule_id rule) message title (level rule) monitors_url;
      Log INFO (LogSent (rule_name rule))]).
Proof.
  intros Hel Hfmt Hsend.
  unfold handle_triggered_alert, bind, get_states, put_states, lift,
    try_except, log, emit.
  cbv zeta. rewrite last_notified_default, Hfmt, Hsend. unfold eligible in Hel.
  destruct (last_notified_of st (rule_id rule)); [rewrite Hel|]; done.
Qed.

Lemma handle_refused env rule st title message :
  eligible env rule st ->
  format_alert_message env rule = Ok (title, message) ->
  send_alert (pushover_service env) message title (level rule) monitors_url
    = Ok false ->
  handle_triggered_alert env rule st =
    (Ok tt, st,
     [Log INFO (LogTriggered (rule_name rule));
      SendAlert (rule_id rule) message title (level rule) monitors_url;
      Log WARNING (LogSendFailed (rule_name rule))]).
Proof.
  intros Hel Hfmt Hsend.
  unfold handle_triggered_alert, bind, get_states, put_states, lift,
    try_except, log, emit.
  cbv zeta. rewrite last_notified_default, Hfmt, Hsend. unfold eligible in Hel.
  destruct (last_notified_of st (rule_id rule)); [rewrite Hel|]; done.
Qed.

Lemma handle_send_raises env rule st title message e :
  eligible env rule st ->
  format_alert_message env rule = Ok (title, message) ->
  send_alert (pushover_service env) message title (level rule) monitors_url
    = Raise e ->
  handle_triggered_alert env rule st =
    (Ok tt, st,
     [Log INFO (LogTriggered (rule_name rule));
      SendAlert (rule_id rule) message title (level rule) monitors_url;
      Log ERROR (LogErrorSending (rule_name rule) e)]).
Proof.
  intros Hel Hfmt Hsend.
  unfold handle_triggered_alert, bind, get_states, put_states, lift,
    try_except, log, emit.
  cbv zeta. rewrite last_notified_default, Hfmt, Hsend. unfold eligible in Hel.
  destruct (last_notified_of st (rule_id rule)); [rewrite Hel|]; done.
Qed.

Lemma check_rule_triggered env rule st :
  outcome (evaluate_condition env rule st) = Ok true ->
  exists tr,
    sends tr = [] /\ evaluated tr = [rule_id rule] /\
    check_rule env rule st =
      (outcome (handle_triggered_alert env rule st),
       states_after (handle_triggered_alert env rule st),
       tr ++ trace_of (handle_triggered_alert env rule st)).
Proof.
  intros Hev. apply outcome_evaluate_condition in Hev as (tr & Hs & He & Hrun).
  exists tr. split; [done|]. split; [done|].
  unfold check_rule, bind. rewrite Hrun.
  by destruct (handle_triggered_alert env rule st) as [[r st'] tr'].
Qed.

Lemma check_rule_not_triggered env rule st :
  outcome (evaluate_condition env rule st) = Ok false ->
  exists tr,
    sends tr = [] /\ evaluated tr = [rule_id rule] /\
    check_rule env rule st =
      match st !! rule_id rule with
      | Some {| last_notified := last; is_active := Some true |} =>
          (Ok tt,
           <[rule_id rule := {| last_notified := last; is_active := Some false |}]> st,
           tr ++ [Log INFO (LogCleared (rule_name rule))])
      | _ => (Ok tt, st, tr ++ [])
      end.
Proof.
  intros Hev. apply outcome_evaluate_condition in Hev as (tr & Hs & He & Hrun).
  exists tr. split; [done|]. split; [done|].
  unfold check_rule, bind. rewrite Hrun.
  unfold clear_if_active, bind, get_states, put_states, log, emit, ret.
  by destruct (st !! rule_id rule) as [[last [[]|]]|].
Qed.

Lemma eligible_dec env rule st :
  eligible env rule st \/
  exists last,
    last_notified_of st (rule_id rule) = Some last /\
    in_cooldown (utcnow env (rule_id rule)) last (cooldown_seconds rule) = true.
Proof.
  unfold eligible. destruct (last_notified_of st (rule_id rule)) as [last|]; [|by left].
  destruct (in_cooldown _ last _) eqn:Hc; [right; by exists last | by left].
Qed.

Lemma check_rule_classified env rule st :
  exists tr,
    sends tr = [] /\ evaluated tr = [rule_id rule] /\
    check_rule_ends env rule st tr (check_rule env rule st).
Proof.
  destruct (evaluate_condition_run env rule) as (b & tr & Hs & He & Hrun).
  assert (outcome (evaluate_condition env rule st) = Ok b) as Hb by by rewrite Hrun.
  destruct b.
  - destruct (check_rule_triggered env rule st Hb) as (tr' & Hs' & He' & ->).
    exists tr'. split; [done|]. split; [done|].
    destruct (eligible_dec env rule st) as [Hel|(last & Hlast & Hcool)].
    + destruct (format_alert_message env rule) as [[title message]|e] eqn:Hfmt.
      * destruct (send_alert (pushover_service env) message title (level rule)
                    monitors_url) as [[]|e] eqn:Hsend.
        -- rewrite (handle_sent _ _ _ _ _ Hel Hfmt Hsend). by apply EndsSent.
        -- rewrite (handle_refused _ _ _ _ _ Hel Hfmt Hsend). apply EndsNotSent.
        -- rewrite (handle_send_raises _ _ _ _ _ _ Hel Hfmt Hsend). apply EndsNotSent.
      * rewrite (handle_format_raises _ _ _ _ Hel Hfmt). apply EndsFormatRaised.
    + rewrite (handle_suppressed _ _ _ _ Hlast Hcool).
      apply EndsQuiet. by repeat constructor.
  - destruct (check_rule_not_triggered env rule st Hb) as (tr' & Hs' & He' & ->).
    exists tr'. split; [done|]. split; [done|].
    destruct (st !! rule_id rule) as [[last [[]|]]|] eqn:Hst;
      try (apply EndsQuiet; constructor).
    by apply EndsCleared.
Qed.

(** *** One iteration of the loop *)

Lemma last_notified_of_insert st r entry :
  last_notified_of (<[r := entry]> st) r = last_notified entry.
Proof. unfold last_notified_of. by rewrite lookup_insert_eq. Qed.

Lemma check_rule_guarded_step env rule st :
  let x := check_rule_guarded env rule st in
  outcome x = Ok tt /\
  evaluated (trace_of x) = [rule_id rule] /\
  (forall k, k ≠ rule_id rule ->
     states_after x !! k = st !! k /\ sends_for k (trace_of x) = []) /\
  (last_notified_of (states_after x) (rule_id rule)
     = last_notified_of st (rule_id rule) \/
   dispatched env (rule_id rule) (trace_of x) /\
   last_notified_of (states_after x) (rule_id rule)
     = Some (utcnow env (rule_id rule))).
Proof.
  destruct (check_rule_classified env rule st) as (tr & Hs & He & Hends).
  unfold check_rule_guarded, try_except, log, emit. cbv zeta.
  pose proof (sends_for_nil_of_sends) as Hquiet.
  inversion Hends as [tr' Hlogs Heq|last Hst Heq|e Heq|title message Hsend Heq
                     |title message lvl msg Heq]; clear Hends;
    unfold outcome, states_after, trace_of; simpl.
  - apply only_logs_silent in Hlogs as (_ & Hs' & He').
    rewrite evaluated_app, He, He'. repeat split; try done.
    + rewrite sends_for_app, !Hquiet; done.
    + by left.
  - rewrite evaluated_app, He. repeat split; try done.
    + by rewrite lookup_insert_ne.
    + rewrite sends_for_app, Hquiet; done.
    + left. rewrite last_notified_of_insert. unfold last_notified_of.
      by rewrite Hst.
  - rewrite !evaluated_app, He. repeat split; try done.
    + rewrite !sends_for_app, Hquiet; done.
    + by left.
  - rewrite evaluated_app, He. repeat split; try done.
    + by rewrite lookup_insert_ne.
    + rewrite sends_for_app, Hquiet by done. simpl.
      by destruct (decide (rule_id rule = k)) as [<-|].
    + right. split; [|by rewrite last_notified_of_insert].
      exists message, title, (level rule), monitors_url. split; [|done].
      apply elem_of_app. right. apply elem_of_cons. right. apply elem_of_cons. by left.
  - rewrite evaluated_app, He. repeat split; try done.
    + rewrite sends_for_app, Hquiet by done. simpl.
      by destruct (decide (rule_id rule = k)) as [<-|].
    + by left.
Qed.

(** *** The loop and the cycle *)

Lemma dispatched_app_l env r tr1 tr2 :
  dispatched env r tr1 -> dispatched env r (tr1 ++ tr2).
Proof.
  intros (message & title & lvl & url & Hin & Hok).
  exists message, title, lvl, url. split; [|done]. apply elem_of_app. by left.
Qed.

Lemma dispatched_app_r env r tr1 tr2 :
  dispatched env r tr2 -> dispatched env r (tr1 ++ tr2).
Proof.
  intros (message & title & lvl & url & Hin & Hok).
  exists message, title, lvl, url. split; [|done]. apply elem_of_app. by right.
Qed.

Lemma outcome_mk {A} (r : result A) st tr : outcome (r, st, tr) = r.
Proof. done. Qed.

Lemma states_after_mk {A} (r : result A) st tr : states_after (r, st, tr) = st.
Proof. done. Qed.

Lemma trace_of_mk {A} (r : result A) st tr : trace_of (r, st, tr) = tr.
Proof. done. Qed.

Lemma bind_ok {A B} (m : M (RuleId := RuleId) A) (f : A -> M B) st a :
  outcome (m st) = Ok a ->
  bind m f st =
    (outcome (f a (states_after (m st))),
     states_after (f a (states_after (m st))),
     trace_of (m st) ++ trace_of (f a (states_after (m st)))).
Proof.
  unfold bind, outcome, states_after, trace_of.
  destruct (m st) as [[r st'] tr]. simpl. intros ->.
  by destruct (f a st') as [[r' st''] tr'].
Qed.

Lemma for_each_cons env rule rules st :
  for_each (check_rule_guarded env) (rule :: rules) st =
    let x := check_rule_guarded env rule st in
    let y := for_each (check_rule_guarded env) rules (states_after x) in
    (outcome y, states_after y, trace_of x ++ trace_of y).
Proof.
  simpl.
  apply (bind_ok (check_rule_guarded env rule)
           (fun _ => for_each (check_rule_guarded env) rules) st tt).
  apply check_rule_guarded_step.
Qed.

Lemma for_each_guarded env rules st :
  let x := for_each (check_rule_guarded env) rules st in
  outcome x = Ok tt /\
  evaluated (trace_of x) = rule_id <$> rules /\
  (forall k, k ∉ rule_id <$> rules ->
     states_after x !! k = st !! k /\ sends_for k (trace_of x) = []) /\
  (forall k,
     last_notified_of (states_after x) k = last_notified_of st k \/
     dispatched env k (trace_of x) /\
     last_notified_of (states_after x) k = Some (utcnow env k)).
Proof.
  revert st. induction rules as [|rule rules IH]; intros st.
  - repeat split; try done. by left.
  - rewrite for_each_cons. cbv zeta.
    destruct (check_rule_guarded_step env rule st) as (_ & He1 & Hframe1 & Hlast1).
    set (x := check_rule_guarded env rule st) in *.
    destruct (IH (states_after x)) as (Hok & He2 & Hframe2 & Hlast2).
    set (y := for_each (check_rule_guarded env) rules (states_after x)) in *.
    rewrite outcome_mk, !states_after_mk, !trace_of_mk.
    split; [exact Hok|]. split; [|split].
    + rewrite evaluated_app, He1, He2. done.
    + intros k Hk. apply not_elem_of_cons in Hk as [Hne Hk].
      destruct (Hframe1 k Hne) as [Hst1 Hs1].
      destruct (Hframe2 k Hk) as [Hst2 Hs2].
      split; [congruence|]. by rewrite sends_for_app, Hs1, Hs2.
    + intros k. destruct (Hlast2 k) as [Hsame2|[Hd2 Hnow2]].
      * rewrite Hsame2.
        destruct (decide (k = rule_id rule)) as [->|Hne].
        -- destruct Hlast1 as [Hsame1|[Hd1 Hnow1]]; [by left|].
           right. split; [by apply dispatched_app_l | done].
        -- left. unfold last_notified_of. by rewrite (proj1 (Hframe1 k Hne)).
      * right. split; [by apply dispatched_app_r | done].
Qed.

Lemma run_not_configured env st :
  is_configured (pushover_service env) = false ->
  run env st =
    (Ok tt, st,
     [Log INFO (LogChecking (length (enabled_rules env)));
      Log DEBUG LogNotConfigured; DbClose]).
Proof.
  intros Hconf. unfold run, try_finally, try_except, bind, log, emit.
  cbv zeta. by rewrite Hconf.
Qed.

Lemma run_configured env st :
  is_configured (pushover_service env) = true ->
  run env st =
    let x := for_each (check_rule_guarded env) (enabled_rules env) st in
    (Ok tt, states_after x,
     Log INFO (LogChecking (length (enabled_rules env))) :: trace_of x ++ [DbClose]).
Proof.
  intros Hconf. unfold run, try_finally, try_except, bind, log, emit.
  cbv zeta. rewrite Hconf. simpl.
  destruct (for_each_guarded env (enabled_rules env) st) as (Hok & _).
  unfold outcome, states_after, trace_of in *.
  destruct (for_each _ _ st) as [[r st'] tr]. simpl in *. by subst r.
Qed.

Lemma for_each_app env rules1 rules2 st :
  for_each (check_rule_guarded env) (rules1 ++ rules2) st =
    let x := for_each (check_rule_guarded env) rules1 st in
    let y := for_each (check_rule_guarded env) rules2 (states_after x) in
    (outcome y, states_after y, trace_of x ++ trace_of y).
Proof.
  revert st. induction rules1 as [|rule rules1 IH]; intros st.
  - simpl. unfold ret, outcome, states_after, trace_of. simpl.
    by destruct (for_each _ rules2 st) as [[r st'] tr].
  - rewrite <- app_comm_cons, !for_each_cons. cbv zeta.
    rewrite IH. cbv zeta.
    rewrite outcome_mk, !states_after_mk, !trace_of_mk.
    by rewrite app_assoc.
Qed.

Lemma check_rule_guarded_raised env rule st e :
  outcome (check_rule env rule st) = Raise e ->
  check_rule_guarded env rule st =
    (Ok tt, states_after (check_rule env rule st),
     trace_of (check_rule env rule st)
       ++ [Log ERROR (LogErrorCheckingRule (rule_name rule) e)]).
Proof.
  unfold check_rule_guarded, try_except, outcome, states_after, trace_of, log, emit.
  destruct (check_rule env rule st) as [[r st'] tr]. simpl. by intros ->.
Qed.

Lemma check_rule_guarded_returned env rule st :
  outcome (check_rule env rule st) = Ok tt ->
  check_rule_guarded env rule st = check_rule env rule st.
Proof.
  unfold check_rule_guarded, try_except, outcome.
  destruct (check_rule env rule st) as [[r st'] tr]. simpl. by intros ->.
Qed.

(** *** The evaluator *)

(** C1. When the candidate expression obtained by substituting the metric
    values contains a character that is not in [safe_chars], the evaluator
    returns [False] without raising, hands nothing to [eval], and leaves
    the alert states alone. *)
Theorem unsafe_candidate_is_never_evaluated env rule candidate (c : ascii) st :
  candidate_expression env rule = Some candidate ->
  PyStr.mem c candidate = true ->
  PyStr.mem c safe_chars = false ->
  outcome (evaluate_condition env rule st) = Ok false /\
  evals (trace_of (evaluate_condition env rule st)) = [] /\
  states_after (evaluate_condition env rule st) = st.
Proof.
  intros Hcand Hin Hunsafe.
  apply candidate_expression_run in Hcand as (m & refs & tr & Hrefs & Hlogs & Hrun).
  pose proof (all_safe_complete candidate c Hin Hunsafe) as Hrej.
  destruct (evaluate_expression_run candidate)
    as (b & tr' & _ & _ & Hno & _ & Hrun').
  destruct (Hno Hrej) as [-> Hev].
  apply only_logs_silent in Hlogs as (Hev0 & _ & _).
  unfold evaluate_condition, bind, emit. rewrite Hrefs, Hrun, Hrun'.
  rewrite outcome_mk, states_after_mk, trace_of_mk. simpl.
  by rewrite evals_app, Hev0, Hev.
Qed.

(** C3. When the condition references a metric that has no monitor row, or
    no recorded sample, or a latest sample whose value is [None], the
    evaluator returns [False] without raising, and without reaching
    [eval]. *)
Theorem missing_data_never_triggers env rule (m : string) st :
  m ∈ Placeholder.findall (condition rule) ->
  no_data env m ->
  outcome (evaluate_condition env rule st) = Ok false /\
  evals (trace_of (evaluate_condition env rule st)) = [] /\
  states_after (evaluate_condition env rule st) = st.
Proof.
  intros Hin Hno.
  pose proof (substitute_refs_no_data env _ m (condition rule) st Hin Hno) as Hsub.
  unfold evaluate_condition.
  destruct (Placeholder.findall (condition rule)) as [|m' refs];
    [by apply elem_of_nil in Hin|].
  destruct (substitute_refs_run env (m' :: refs) (condition rule))
    as (r & tr & Hlogs & Hrun).
  rewrite Hrun, outcome_mk in Hsub. injection Hsub as ->.
  apply only_logs_silent in Hlogs as (Hev0 & _ & _).
  unfold bind, emit, ret. rewrite Hrun.
  rewrite outcome_mk, states_after_mk, trace_of_mk. simpl.
  by rewrite evals_app, Hev0.
Qed.

(** *** The cooldown *)

Lemma in_cooldown_lt now last cooldown :
  PyFloat.exact_span (now - last) ->
  in_cooldown now last cooldown = true <-> (now - last < cooldown * 1000000)%Z.
Proof.
  intros Hspan. unfold in_cooldown.
  rewrite (PyFloatFacts.total_seconds_lt_exact _ _ Hspan). apply Z.ltb_lt.
Qed.

Lemma in_cooldown_ge now last cooldown :
  PyFloat.exact_span (now - last) ->
  in_cooldown now last cooldown = false <-> (cooldown * 1000000 <= now - last)%Z.
Proof.
  intros Hspan. unfold in_cooldown.
  rewrite (PyFloatFacts.total_seconds_lt_exact _ _ Hspan). apply Z.ltb_ge.
Qed.

Lemma check_rule_suppressed env rule st last :
  outcome (evaluate_condition env rule st) = Ok true ->
  last_notified_of st (rule_id rule) = Some last ->
  in_cooldown (utcnow env (rule_id rule)) last (cooldown_seconds rule) = true ->
  outcome (check_rule env rule st) = Ok tt /\
  sends (trace_of (check_rule env rule st)) = [] /\
  states_after (check_rule env rule st) = st.
Proof.
  intros Hev Hlast Hlt.
  destruct (check_rule_triggered env rule st Hev) as (tr & Hs & _ & ->).
  rewrite (handle_suppressed _ _ _ _ Hlast Hlt).
  rewrite !outcome_mk, !states_after_mk, !trace_of_mk.
  by rewrite sends_app, Hs.
Qed.

Lemma check_rule_dispatches env rule st title message :
  outcome (evaluate_condition env rule st) = Ok true ->
  eligible env rule st ->
  format_alert_message env rule = Ok (title, message) ->
  outcome (check_rule env rule st) = Ok tt /\
  sends (trace_of (check_rule env rule st))
    = [SendAlert (rule_id rule) message title (level rule) monitors_url] /\
  (send_alert (pushover_service env) message title (level rule) monitors_url
     ≠ Ok true ->
   states_after (check_rule env rule st) = st).
Proof.
  intros Hev Hel Hfmt.
  destruct (check_rule_triggered env rule st Hev) as (tr & Hs & _ & ->).
  destruct (send_alert (pushover_service env) message title (level rule)
              monitors_url) as [[]|e] eqn:Hsend.
  - rewrite (handle_sent _ _ _ _ _ Hel Hfmt Hsend).
    rewrite !outcome_mk, !states_after_mk, !trace_of_mk.
    by rewrite sends_app, Hs.
  - rewrite (handle_refused _ _ _ _ _ Hel Hfmt Hsend).
    rewrite !outcome_mk, !states_after_mk, !trace_of_mk.
    by rewrite sends_app, Hs.
  - rewrite (handle_send_raises _ _ _ _ _ _ Hel Hfmt Hsend).
    rewrite !outcome_mk, !states_after_mk, !trace_of_mk.
    by rewrite sends_app, Hs.
Qed.

(** C4. For a rule whose condition evaluates to true: when the alert
    states record a last notification and the seconds elapsed since, as
    the float [total_seconds()] returns, are strictly less than the
    cooldown, [send_alert] is not called; when they equal or exceed the
    cooldown, or the rule was never notified, and the formatter returns
    the title and message, [send_alert] is called once with them.  For
    elapsed times from 0 to 2^34 seconds the float test is the exact
    comparison of the elapsed microseconds with the cooldown. *)
Theorem cooldown_law env rule st :
  outcome (evaluate_condition env rule st) = Ok true ->
  (forall last,
     last_notified_of st (rule_id rule) = Some last ->
     in_cooldown (utcnow env (rule_id rule)) last (cooldown_seconds rule) = true ->
     sends (trace_of (check_rule env rule st)) = []) /\
  (forall title message,
     format_alert_message env rule = Ok (title, message) ->
     (last_notified_of st (rule_id rule) = None \/
      exists last,
        last_notified_of st (rule_id rule) = Some last /\
        in_cooldown (utcnow env (rule_id rule)) last (cooldown_seconds rule)
          = false) ->
     sends (trace_of (check_rule env rule st))
       = [SendAlert (rule_id rule) message title (level rule) monitors_url]) /\
  (forall last,
     PyFloat.exact_span (utcnow env (rule_id rule) - last) ->
     (in_cooldown (utcnow env (rule_id rule)) last (cooldown_seconds rule) = true
      <-> (utcnow env (rule_id rule) - last < cooldown_seconds rule * 1000000)%Z) /\
     (in_cooldown (utcnow env (rule_id rule)) last (cooldown_seconds rule) = false
      <-> (cooldown_seconds rule * 1000000 <= utcnow env (rule_id rule) - last)%Z)).
Proof.
  intros Hev. split; [|split].
  - intros last Hlast Hlt. by apply (check_rule_suppressed env rule st last).
  - intros title message Hfmt Hwhen.
    apply check_rule_dispatches; [done| |done].
    unfold eligible. by destruct Hwhen as [->|(last & -> & Hge)].
  - intros last Hspan. split; [by apply in_cooldown_lt | by apply in_cooldown_ge].
Qed.

(** C5. For a triggered rule that passes the cooldown check, when
    [send_alert] returns [False] or raises, the attempt was made, nothing
    propagates to the loop, and [alert_states] is exactly what it was: no
    [last_notified] is written and no [is_active] is changed. *)
Theorem failed_dispatch_leaves_state env rule st title message :
  outcome (evaluate_condition env rule st) = Ok true ->
  eligible env rule st ->
  format_alert_message env rule = Ok (title, message) ->
  (send_alert (pushover_service env) message title (level rule) monitors_url
     = Ok false \/
   exists e,
     send_alert (pushover_service env) message title (level rule) monitors_url
       = Raise e) ->
  outcome (check_rule env rule st) = Ok tt /\
  sends (trace_of (check_rule env rule st))
    = [SendAlert (rule_id rule) message title (level rule) monitors_url] /\
  states_after (check_rule env rule st) = st.
Proof.
  intros Hev Hel Hfmt Hfail.
  destruct (check_rule_dispatches env rule st title message Hev Hel Hfmt)
    as (Hok & Hsends & Hkeep).
  split; [done|]. split; [done|]. apply Hkeep.
  destruct Hfail as [->|[e ->]]; done.
Qed.

(** C10. The cooldown check reads only the recorded timestamp: for a rule
    whose entry has [is_active = False] and whose condition is true again
    while the seconds elapsed since the entry's [last_notified], as the
    float [total_seconds()] returns, are less than the cooldown (for
    elapsed times from 0 to 2^34 seconds: while fewer microseconds have
    passed than the cooldown holds), [send_alert] is not called and
    [alert_states] is unchanged. *)
Theorem cleared_rule_stays_in_cooldown env rule st entry last :
  st !! rule_id rule = Some entry ->
  is_active entry = Some false ->
  last_notified entry = Some last ->
  (in_cooldown (utcnow env (rule_id rule)) last (cooldown_seconds rule) = true \/
   PyFloat.exact_span (utcnow env (rule_id rule) - last) /\
   (utcnow env (rule_id rule) - last < cooldown_seconds rule * 1000000)%Z) ->
  outcome (evaluate_condition env rule st) = Ok true ->
  sends (trace_of (check_rule env rule st)) = [] /\
  states_after (check_rule env rule st) = st /\
  states_after (check_rule env rule st) !! rule_id rule = Some entry.
Proof.
  intros Hst Hinactive Hlast Hcool Hev.
  assert (in_cooldown (utcnow env (rule_id rule)) last (cooldown_seconds rule)
            = true) as Hlt.
  { destruct Hcool as [Hcool|[Hspan Hcool]]; [done|]. by apply in_cooldown_lt. }
  destruct (check_rule_suppressed env rule st last Hev) as (_ & Hs & Hsame).
  - unfold last_notified_of. by rewrite Hst.
  - done.
  - by rewrite Hsame.
Qed.

(** *** The cycle *)

Lemma evaluate_condition_any_state env rule st st' b :
  outcome (evaluate_condition env rule st) = Ok b ->
  outcome (evaluate_condition env rule st') = Ok b.
Proof.
  intros Hev. apply outcome_evaluate_condition in Hev as (tr & _ & _ & Hrun).
  by rewrite Hrun.
Qed.

Lemma check_rule_guarded_clears env rule st entry :
  st !! rule_id rule = Some entry ->
  is_active entry = Some true ->
  outcome (evaluate_condition env rule st) = Ok false ->
  states_after (check_rule_guarded env rule st)
    = <[rule_id rule := {| last_notified := last_notified entry;
                           is_active := Some false |}]> st /\
  sends (trace_of (check_rule_guarded env rule st)) = [].
Proof.
  intros Hst Hact Hev.
  destruct (check_rule_not_triggered env rule st Hev) as (tr & Hs & _ & Hrun).
  rewrite Hst in Hrun. destruct entry as [last active]. simpl in Hact. subst active.
  rewrite check_rule_guarded_returned; rewrite Hrun; [|done].
  rewrite states_after_mk, trace_of_mk. simpl.
  by rewrite sends_app, Hs.
Qed.

(** C6. In a cycle that checks the rules (the transport is configured, and
    rule ids are distinct as primary keys are), a rule whose condition
    evaluates to false while its entry has [is_active = True] ends the
    cycle with [is_active = False] and the same [last_notified], and
    [send_alert] is not called for it. *)
Theorem clear_transition env st rule entry :
  is_configured (pushover_service env) = true ->
  rule ∈ enabled_rules env ->
  NoDup (rule_id <$> enabled_rules env) ->
  st !! rule_id rule = Some entry ->
  is_active entry = Some true ->
  outcome (evaluate_condition env rule st) = Ok false ->
  states_after (run env st) !! rule_id rule
    = Some {| last_notified := last_notified entry; is_active := Some false |} /\
  sends_for (rule_id rule) (trace_of (run env st)) = [].
Proof.
  intros Hconf Hin Hnodup Hst Hact Hev.
  rewrite (run_configured env st Hconf). cbv zeta.
  rewrite states_after_mk, trace_of_mk.
  apply list_elem_of_split in Hin as (before & after & Hsplit).
  rewrite Hsplit in Hnodup |- *.
  rewrite fmap_app, fmap_cons in Hnodup.
  apply NoDup_app in Hnodup as (_ & Hbefore & Hafter).
  apply NoDup_cons in Hafter as [Hafter _].
  assert (rule_id rule ∉ rule_id <$> before) as Hbefore'.
  { intros Hb. apply (Hbefore _ Hb). apply elem_of_cons. by left. }
  rewrite for_each_app. cbv zeta. rewrite for_each_cons. cbv zeta.
  destruct (for_each_guarded env before st) as (_ & _ & Hframe1 & _).
  destruct (Hframe1 _ Hbefore') as [Hst1 Hs1].
  set (x := for_each (check_rule_guarded env) before st) in *.
  rewrite <- Hst1 in Hst.
  pose proof (evaluate_condition_any_state env rule st (states_after x) _ Hev) as Hev1.
  destruct (check_rule_guarded_clears env rule _ entry Hst Hact Hev1) as [Hst2 Hs2].
  set (y := check_rule_guarded env rule (states_after x)) in *.
  destruct (for_each_guarded env after (states_after y)) as (_ & _ & Hframe3 & _).
  destruct (Hframe3 _ Hafter) as [Hst3 Hs3].
  set (z := for_each (check_rule_guarded env) after (states_after y)) in *.
  rewrite !states_after_mk, !trace_of_mk. split.
  - rewrite Hst3, Hst2. by rewrite lookup_insert_eq.
  - simpl. rewrite !sends_for_app, Hs1, Hs3.
    rewrite (sends_for_nil_of_sends _ _ Hs2). done.
Qed.


Lemma run_last_notified env st k :
  last_notified_of (states_after (run env st)) k = last_notified_of st k \/
  dispatched env k (trace_of (run env st)) /\
  last_notified_of (states_after (run env st)) k = Some (utcnow env k).
Proof.
  destruct (is_configured (pushover_service env)) eqn:Hconf.
  - rewrite (run_configured env st Hconf). cbv zeta.
    rewrite states_after_mk, trace_of_mk.
    destruct (for_each_guarded env (enabled_rules env) st) as (_ & _ & _ & Hlast).
    destruct (Hlast k) as [Hsame|[Hd Hnow]]; [by left|right].
    split; [|done].
    apply (dispatched_app_r _ _ [_]), dispatched_app_l, Hd.
  - rewrite (run_not_configured env st Hconf). by left.
Qed.

Lemma run_cycles_history (envs : list (Env RuleId Value)) st k t :
  last_notified_of (run_cycles envs st).1 k = Some t ->
  last_notified_of st k = Some t \/
  exists env tr,
    (env, tr) ∈ (run_cycles envs st).2 /\ dispatched env k tr /\ t = utcnow env k.
Proof.
  revert st. induction envs as [|env envs IH]; intros st; simpl; [by left|].
  destruct (run_cycles envs (states_after (run env st))) as [st' history] eqn:Hrest.
  simpl. intros Hlast.
  specialize (IH (states_after (run env st))). rewrite Hrest in IH. simpl in IH.
  destruct (IH Hlast) as [Hhere|(env' & tr' & Hin & Hd & Ht)].
  - destruct (run_last_notified env st k) as [Hsame|[Hd Hnow]].
    + left. congruence.
    + right. exists env, (trace_of (run env st)).
      split; [apply elem_of_cons; by left|]. split; [done|]. congruence.
  - right. exists env', tr'. split; [apply elem_of_cons; by right|done].
Qed.

(** C9. In every state of the alert states that cycles can reach from the
    empty one, a recorded [last_notified] was written by a cycle in which
    [send_alert] was called for that rule (and accepted the message), at
    that cycle's clock reading; and one more cycle changes the recorded
    timestamp of a rule only in that way.  Evaluation alone, a suppressed
    cycle and the clear transition leave it as it was. *)
Theorem last_notified_written_only_by_dispatch
    (envs : list (Env RuleId Value)) env (k : RuleId) :
  let reached := run_cycles envs ∅ in
  (forall t,
     last_notified_of reached.1 k = Some t ->
     exists env' tr',
       (env', tr') ∈ reached.2 /\ dispatched env' k tr' /\ t = utcnow env' k) /\
  (last_notified_of (states_after (run env reached.1)) k
     = last_notified_of reached.1 k \/
   dispatched env k (trace_of (run env reached.1)) /\
   last_notified_of (states_after (run env reached.1)) k = Some (utcnow env k)).
Proof.
  cbv zeta. split; [|apply run_last_notified].
  intros t Hlast.
  destruct (run_cycles_history envs ∅ k t Hlast) as [Hempty|Hdone]; [|done].
  unfold last_notified_of in Hempty. by rewrite lookup_empty in Hempty.
Qed.

End Properties.

(** ** Closed instances *)

Module Instances.

Import Examples.

Local Open Scope Z_scope.

Example findall_two :
  Placeholder.findall "${monitor:m1} > 50 or ${monitor:m1} < 30" = ["m1"; "m1"].
Proof. reflexivity. Qed.

Example findall_unclosed : Placeholder.findall "${monitor:m1 > 50" = [].
Proof. reflexivity. Qed.

Example findall_empty_id : Placeholder.findall "${monitor:} > ${monitor:a}" = ["a"].
Proof. reflexivity. Qed.

Example replace_all : PyStr.replace "ab" "x" "abcabab" = "xcxx".
Proof. reflexivity. Qed.

Example replace_no_overlap : PyStr.replace "aa" "b" "aaa" = "ba".
Proof. reflexivity. Qed.

Example strip_tab :
  Placeholder.strip ("${monitor:a}" +:+ String "009" (String " " ">1")) = ">1".
Proof. reflexivity. Qed.

(** The float comparison at and around its rounding points: exact below
    2^34 seconds, rounding up to the cooldown beyond, a tie broken to even,
    and a negative duration. *)
Example total_seconds_lt_rounding :
  PyFloat.total_seconds_lt 59999999 60 = true /\
  PyFloat.total_seconds_lt 60000000 60 = false /\
  PyFloat.total_seconds_lt 17179869183999999 17179869184 = true /\
  PyFloat.total_seconds_lt 34359738367999999 34359738368 = false /\
  PyFloat.total_seconds_lt 19999999999999990 20000000000 = true /\
  PyFloat.total_seconds_lt 19999999999999999 20000000000 = false /\
  PyFloat.total_seconds_lt 9007199254740993000000 9007199254740993 = true /\
  PyFloat.total_seconds_lt (-1) 0 = true.
Proof. vm_compute. repeat split. Qed.

Example band_triggers_at_62 :
  outcome (evaluate_condition (world (Some 62) [] (Ok true) 0) (rule "r1" band 60) ∅)
    = Ok true.
Proof. by vm_compute. Qed.

Example band_quiet_at_40 :
  outcome (evaluate_condition (world (Some 40) [] (Ok true) 0) (rule "r1" band 60) ∅)
    = Ok false.
Proof. by vm_compute. Qed.

(** C2. The validation step tests the characters of the candidate itself,
    not of [check_str], and [safe_chars] holds neither ["!"] nor the
    letters of ["and"]: the candidates ["62.0 != 50"] and
    ["62.0 > 50 and 62.0 < 30"], made of digits, dots, spaces and listed
    operators only, are rejected as unsafe and never reach [eval], although
    [check_str] passes the test for both. *)
Theorem validation_rejects_listed_operators :
  let env := world (Some 62) [] (Ok true) 0 in
  let differs := rule "r1" "${monitor:m1} != 50" 60 in
  let both := rule "r2" "${monitor:m1} > 50 and ${monitor:m1} < 30" 60 in
  (candidate_expression env differs = Some "62.0 != 50" /\
   evaluate_condition env differs ∅
     = (Ok false, ∅,
        [EvaluateCondition "r1"; Log ERROR (LogUnsafeCondition "62.0 != 50")]) /\
   all_safe (strip_operators "62.0 != 50") = true) /\
  (candidate_expression env both = Some "62.0 > 50 and 62.0 < 30" /\
   evaluate_condition env both ∅
     = (Ok false, ∅,
        [EvaluateCondition "r2";
         Log ERROR (LogUnsafeCondition "62.0 > 50 and 62.0 < 30")]) /\
   all_safe (strip_operators "62.0 > 50 and 62.0 < 30") = true).
Proof. vm_compute. repeat split. Qed.

(** C7. On [${monitor:x} > 50 or ${monitor:x} < 30] (and on the same
    condition over [m1]) the boundary formatter removes each placeholder
    with the white space after it and upper-cases the operator, but keeps
    the space between each comparison operator and its number: it returns
    ["> 50 OR < 30"], not [">50 OR <30"]. *)
Theorem boundary_keeps_inner_spaces :
  parse_condition_to_boundary "${monitor:x} > 50 or ${monitor:x} < 30"
    = "> 50 OR < 30" /\
  parse_condition_to_boundary "${monitor:m1} > 50 or ${monitor:m1} < 30"
    = "> 50 OR < 30" /\
  parse_condition_to_boundary "${monitor:xxx} > 100" = "> 100" /\
  parse_condition_to_boundary "${monitor:x} > 50 or ${monitor:x} < 30"
    <> ">50 OR <30".
Proof. vm_compute. repeat split. discriminate. Qed.

Lemma unsafe_candidate_is_never_evaluated_witness :
  let env := world (Some 62) [] (Ok true) 0 in
  let injected := rule "r1" "${monitor:m1} > 50; 1" 60 in
  candidate_expression env injected = Some "62.0 > 50; 1" /\
  outcome (evaluate_condition env injected ∅) = Ok false /\
  evals (trace_of (evaluate_condition env injected ∅)) = [] /\
  states_after (evaluate_condition env injected ∅) = ∅.
Proof.
  cbv zeta. split; [vm_compute; reflexivity|].
  apply (unsafe_candidate_is_never_evaluated
           (world (Some 62) [] (Ok true) 0) (rule "r1" "${monitor:m1} > 50; 1" 60)
           "62.0 > 50; 1" ";" ∅); vm_compute; reflexivity.
Defined.

Lemma missing_data_never_triggers_witness :
  let env := world None [] (Ok true) 0 in
  no_data env "m1" /\
  outcome (evaluate_condition env (rule "r1" band 60) ∅) = Ok false /\
  evals (trace_of (evaluate_condition env (rule "r1" band 60) ∅)) = [] /\
  states_after (evaluate_condition env (rule "r1" band 60) ∅) = ∅.
Proof.
  cbv zeta.
  assert (no_data (world None [] (Ok true) 0) "m1") as Hno.
  { right. right. by eexists. }
  split; [exact Hno|].
  apply (missing_data_never_triggers (world None [] (Ok true) 0)
           (rule "r1" band 60) "m1" ∅); [|exact Hno].
  vm_compute. apply list_elem_of_here.
Defined.

Lemma cooldown_law_witness :
  sends (trace_of (check_rule (world (Some 62) [] (Ok true) (seconds 30))
                     (rule "r1" band 60) (notified 0 true))) = [] /\
  sends (trace_of (check_rule (world (Some 62) [] (Ok true) (seconds 60))
                     (rule "r1" band 60) (notified 0 true))) = [band_alert] /\
  sends (trace_of (check_rule (world (Some 62) [] (Ok true) (seconds 61))
                     (rule "r1" band 60) ∅)) = [band_alert] /\
  (in_cooldown (seconds 30) 0 60 = true <-> seconds 30 - 0 < 60 * 1000000).
Proof.
  split; [|split; [|split]].
  - refine (proj1 (cooldown_law (world (Some 62) [] (Ok true) (seconds 30))
                     (rule "r1" band 60) (notified 0 true) _) 0 _ _);
      vm_compute; reflexivity.
  - refine (proj1 (proj2 (cooldown_law (world (Some 62) [] (Ok true) (seconds 60))
                            (rule "r1" band 60) (notified 0 true) _))
              "DRIFT" band_body _ _).
    + vm_compute; reflexivity.
    + vm_compute; reflexivity.
    + right. exists 0. split; vm_compute; reflexivity.
  - refine (proj1 (proj2 (cooldown_law (world (Some 62) [] (Ok true) (seconds 61))
                            (rule "r1" band 60) ∅ _))
              "DRIFT" band_body _ _).
    + vm_compute; reflexivity.
    + vm_compute; reflexivity.
    + left. vm_compute; reflexivity.
  - refine (proj1 (proj2 (proj2 (cooldown_law
                                   (world (Some 62) [] (Ok true) (seconds 30))
                                   (rule "r1" band 60) (notified 0 true) _))
                     0 _)).
    + vm_compute; reflexivity.
    + vm_compute. split; [discriminate|reflexivity].
Defined.

(** Two inputs on which the cooldown law needs its side conditions.  A
    rule that was never notified and whose condition is true is not
    dispatched when its message cannot be formatted; and a rule whose last
    notification is one microsecond short of a cooldown of 2e10 seconds is
    dispatched, because the elapsed [total_seconds()] rounds up to the
    cooldown. *)
Lemma cooldown_law_counterexample :
  (let env := world (Some 62) [] (Ok true) 0 in
   let broken := rule "r0" "${monitor:bad} > 50" 60 in
   outcome (evaluate_condition env broken ∅) = Ok true /\
   last_notified_of (∅ : gmap string AlertState) "r0" = None /\
   sends (trace_of (check_rule env broken ∅)) = []) /\
  (let env := world (Some 62) [] (Ok true) 19999999999999999 in
   let patient := rule "r1" band 20000000000 in
   outcome (evaluate_condition env patient (notified 0 true)) = Ok true /\
   last_notified_of (notified 0 true) "r1" = Some 0 /\
   utcnow env "r1" - 0 < cooldown_seconds patient * 1000000 /\
   sends (trace_of (check_rule env patient (notified 0 true))) = [band_alert]).
Proof. vm_compute. repeat split. Qed.

Lemma failed_dispatch_leaves_state_witness :
  (let env := world (Some 62) [] (Ok false) (seconds 61) in
   sends (trace_of (check_rule env (rule "r1" band 60) (notified 0 true)))
     = [band_alert] /\
   states_after (check_rule env (rule "r1" band 60) (notified 0 true))
     = notified 0 true) /\
  (let env := world (Some 62) [] (Raise "timeout") 0 in
   sends (trace_of (check_rule env (rule "r1" band 60) ∅)) = [band_alert] /\
   states_after (check_rule env (rule "r1" band 60) ∅) = ∅).
Proof.
  cbv zeta. split.
  - refine (proj2 (failed_dispatch_leaves_state
                     (world (Some 62) [] (Ok false) (seconds 61))
                     (rule "r1" band 60) (notified 0 true) "DRIFT" band_body
                     _ _ _ _)).
    + vm_compute; reflexivity.
    + vm_compute; reflexivity.
    + vm_compute; reflexivity.
    + left. vm_compute; reflexivity.
  - refine (proj2 (failed_dispatch_leaves_state
                     (world (Some 62) [] (Raise "timeout") 0)
                     (rule "r1" band 60) ∅ "DRIFT" band_body _ _ _ _)).
    + vm_compute; reflexivity.
    + vm_compute; exact I.
    + vm_compute; reflexivity.
    + right. exists "timeout". vm_compute; reflexivity.
Defined.

Lemma cleared_rule_stays_in_cooldown_witness :
  let env := world (Some 62) [] (Ok true) (seconds 30) in
  sends (trace_of (check_rule env (rule "r1" band 60) (notified 0 false))) = [] /\
  states_after (check_rule env (rule "r1" band 60) (notified 0 false))
    = notified 0 false.
Proof.
  cbv zeta.
  destruct (cleared_rule_stays_in_cooldown
              (world (Some 62) [] (Ok true) (seconds 30)) (rule "r1" band 60)
              (notified 0 false)
              {| last_notified := Some 0; is_active := Some false |} 0)
    as (Hquiet & Hsame & _); try (vm_compute; reflexivity).
  - right. vm_compute. repeat split. discriminate.
  - split; [exact Hquiet | exact Hsame].
Defined.

(** A cleared rule one microsecond short of a cooldown of 2e10 seconds:
    the elapsed [total_seconds()] rounds up to the cooldown, so the rule
    is dispatched and its entry rewritten. *)
Lemma cleared_rule_stays_in_cooldown_counterexample :
  let env := world (Some 62) [] (Ok true) 19999999999999999 in
  let patient := rule "r1" band 20000000000 in
  notified 0 false !! "r1"
    = Some {| last_notified := Some 0; is_active := Some false |} /\
  utcnow env "r1" - 0 < cooldown_seconds patient * 1000000 /\
  outcome (evaluate_condition env patient (notified 0 false)) = Ok true /\
  sends (trace_of (check_rule env patient (notified 0 false))) = [band_alert] /\
  states_after (check_rule env patient (notified 0 false)) !! "r1"
    = Some {| last_notified := Some 19999999999999999; is_active := Some true |}.
Proof. vm_compute. repeat split. Qed.

Lemma clear_transition_witness :
  let env := world (Some 40) [rule "r1" band 60] (Ok true) (seconds 5) in
  states_after (run env (notified 0 true)) !! "r1"
    = Some {| last_notified := Some 0; is_active := Some false |} /\
  sends_for "r1" (trace_of (run env (notified 0 true))) = [].
Proof.
  cbv zeta.
  refine (clear_transition
            (world (Some 40) [rule "r1" band 60] (Ok true) (seconds 5))
            (notified 0 true) (rule "r1" band 60)
            {| last_notified := Some 0; is_active := Some true |} _ _ _ _ _ _).
  - reflexivity.
  - vm_compute. apply list_elem_of_here.
  - vm_compute. apply NoDup_singleton.
  - vm_compute; reflexivity.
  - reflexivity.
  - vm_compute; reflexivity.
Defined.


Lemma last_notified_written_only_by_dispatch_witness :
  let first := world (Some 62) [rule "r1" band 60] (Ok true) (seconds 5) in
  let second := world (Some 62) [rule "r1" band 60] (Ok true) (seconds 10) in
  let reached := run_cycles [first] ∅ in
  last_notified_of reached.1 "r1" = Some (seconds 5) /\
  (exists env' tr',
     (env', tr') ∈ reached.2 /\ dispatched env' "r1" tr' /\
     seconds 5 = utcnow env' "r1") /\
  last_notified_of (states_after (run second reached.1)) "r1"
    = Some (seconds 5).
Proof.
  cbv zeta.
  assert (last_notified_of
            (run_cycles
               [world (Some 62) [rule "r1" band 60] (Ok true) (seconds 5)] ∅).1
            "r1" = Some (seconds 5)) as Hlast by (vm_compute; reflexivity).
  split; [exact Hlast|].
  destruct (last_notified_written_only_by_dispatch
              [world (Some 62) [rule "r1" band 60] (Ok true) (seconds 5)]
              (world (Some 62) [rule "r1" band 60] (Ok true) (seconds 10)) "r1")
    as [Hwritten Hstep].
  split; [exact (Hwritten (seconds 5) Hlast)|].
  vm_compute; reflexivity.
Defined.

End Instances.

(** ** Further properties of the checker *)

(** ** Facts about the string primitives *)

Module StringFacts.

Lemma append_nil (b : string) : "" +:+ b = b.
Proof. done. Qed.

Lemma append_cons (x : ascii) (a b : string) : String x a +:+ b = String x (a +:+ b).
Proof. done. Qed.

Lemma append_assoc (a b c : string) : (a +:+ b) +:+ c = a +:+ (b +:+ c).
Proof. induction a as [|x a IH]; [done|]. by rewrite !append_cons, IH. Qed.

Lemma length_append (a b : string) :
  String.length (a +:+ b) = String.length a + String.length b.
Proof. induction a as [|x a IH]; [done|]. rewrite append_cons. simpl. by rewrite IH. Qed.

Lemma startswith_append (p s : string) : PyStr.startswith p (p +:+ s) = true.
Proof.
  induction p as [|x p IH]; [done|]. rewrite append_cons. simpl.
  by rewrite Ascii.eqb_refl, IH.
Qed.

Lemma startswith_split (p s : string) :
  PyStr.startswith p s = true -> s = p +:+ PyStr.drop (String.length p) s.
Proof.
  revert s. induction p as [|x p IH]; intros [|y s]; simpl; try done.
  intros [Hxy Hp]%andb_prop. apply Ascii.eqb_eq in Hxy as ->.
  by rewrite append_cons, <- (IH s Hp).
Qed.

Lemma drop_append (p s : string) : PyStr.drop (String.length p) (p +:+ s) = s.
Proof.
  induction p as [|x p IH]; [by destruct s|]. rewrite append_cons. exact IH.
Qed.

Lemma drop_0 (s : string) : PyStr.drop 0 s = s.
Proof. by destruct s. Qed.

Lemma length_drop (k : nat) (s : string) :
  String.length (PyStr.drop k s) <= String.length s.
Proof.
  revert k. induction s as [|x s IH]; intros [|k]; simpl; try lia.
  specialize (IH k). lia.
Qed.

Lemma forallb_append (f : ascii -> bool) (a b : string) :
  PyStr.forallb f (a +:+ b) = PyStr.forallb f a && PyStr.forallb f b.
Proof.
  induction a as [|x a IH]; [done|]. rewrite append_cons. simpl.
  by rewrite IH, andb_assoc.
Qed.

Lemma mem_append (c : ascii) (a b : string) :
  PyStr.mem c (a +:+ b) = PyStr.mem c a || PyStr.mem c b.
Proof.
  induction a as [|x a IH]; [done|]. rewrite append_cons. simpl.
  by rewrite IH, orb_assoc.
Qed.

(** Skipping [k] bytes is scanning what is left after them. *)
Lemma replace_from_drop (old new : string) (k : nat) (s : string) :
  PyStr.replace_from old new k s = PyStr.replace_from old new 0 (PyStr.drop k s).
Proof.
  revert k. induction s as [|x s IH]; intros [|k]; try done.
  simpl PyStr.drop. rewrite <- IH. done.
Qed.

Lemma findall_from_drop (k : nat) (s : string) :
  Placeholder.findall_from k s = Placeholder.findall_from 0 (PyStr.drop k s).
Proof.
  revert k. induction s as [|x s IH]; intros [|k]; try done.
  simpl PyStr.drop. rewrite <- IH. done.
Qed.

Lemma strip_from_drop (k : nat) (s : string) :
  Placeholder.strip_from k s = Placeholder.strip_from 0 (PyStr.drop k s).
Proof.
  revert k. induction s as [|x s IH]; intros [|k]; try done.
  simpl PyStr.drop. rewrite <- IH. done.
Qed.

(** [replace] writes only characters of [s] and of [new]. *)
Lemma forallb_replace_from (f : ascii -> bool) (old new : string) (k : nat) (s : string) :
  PyStr.forallb f s = true -> PyStr.forallb f new = true ->
  PyStr.forallb f (PyStr.replace_from old new k s) = true.
Proof.
  intros Hs Hnew. revert k Hs.
  induction s as [|x s IH]; intros k Hs; [done|].
  simpl in Hs. apply andb_prop in Hs as [Hx Hs].
  destruct k as [|k]; simpl.
  - destruct (PyStr.startswith old (String x s)).
    + rewrite forallb_append, Hnew. simpl. by apply IH.
    + simpl. rewrite Hx. simpl. by apply IH.
  - by apply IH.
Qed.

Lemma forallb_impl (f g : ascii -> bool) (s : string) :
  (forall c, f c = true -> g c = true) ->
  PyStr.forallb f s = true -> PyStr.forallb g s = true.
Proof.
  intros Hfg. induction s as [|x s IH]; simpl; [done|].
  intros [Hx Hs]%andb_prop. by rewrite (Hfg x Hx), (IH Hs).
Qed.

Lemma replace_from_same (y : ascii) (old : string) (n : nat) (s : string) :
  String.length s <= n ->
  PyStr.replace_from (String y old) (String y old) 0 s = s.
Proof.
  revert s. induction n as [|n IH]; intros [|x s] Hlen; try done; [simpl in Hlen; lia|].
  cbn [PyStr.replace_from]. simpl in Hlen.
  destruct (PyStr.startswith (String y old) (String x s)) eqn:Hstart.
  - rewrite replace_from_drop, IH.
    + simpl in Hstart. apply andb_prop in Hstart as [Hxy Hstart].
      apply Ascii.eqb_eq in Hxy as ->. simpl. rewrite Nat.sub_0_r, append_cons.
      by rewrite <- (startswith_split old s Hstart).
    + pose proof (length_drop (String.length (String y old) - 1) s). lia.
  - rewrite IH; [done|lia].
Qed.

Lemma intersperse_empty (s : string) : PyStr.intersperse "" s = s.
Proof. induction s as [|x s IH]; simpl; [done|]. by rewrite append_nil, IH. Qed.

Lemma replace_same (old s : string) : PyStr.replace old old s = s.
Proof.
  destruct old as [|y old]; simpl.
  - apply intersperse_empty.
  - by apply (replace_from_same _ _ (String.length s)).
Qed.

(** *** The placeholder pattern *)

Lemma take_id_no_brace (s : string) : PyStr.mem "}" (Placeholder.take_id s) = false.
Proof.
  induction s as [|x s IH]; [done|]. cbn [Placeholder.take_id].
  destruct (Ascii.eqb x "}") eqn:Hx; [done|]. cbn [PyStr.mem].
  rewrite Ascii.eqb_sym, Hx. exact IH.
Qed.

Lemma take_id_app (id rest : string) :
  PyStr.mem "}" id = false ->
  Placeholder.take_id (id +:+ String "}" rest) = id.
Proof.
  induction id as [|x id IH].
  - intros _. rewrite append_nil. cbn [Placeholder.take_id]. by rewrite Ascii.eqb_refl.
  - rewrite append_cons. cbn [Placeholder.take_id PyStr.mem].
    intros [Hx Hid]%orb_false_elim. rewrite Ascii.eqb_sym, Hx. by rewrite IH.
Qed.

Lemma match_at_render (id rest : string) :
  id ≠ "" -> PyStr.mem "}" id = false ->
  Placeholder.match_at (Placeholder.render id +:+ rest) = Some id.
Proof.
  intros Hne Hid. unfold Placeholder.match_at, Placeholder.render.
  rewrite !append_assoc, startswith_append, (drop_append Placeholder.opening).
  rewrite append_cons, append_nil, (take_id_app id rest Hid).
  destruct id as [|a id']; [done|]. by rewrite (drop_append (String a id')).
Qed.

Lemma match_at_some (s id : string) :
  Placeholder.match_at s = Some id ->
  id ≠ "" /\ PyStr.mem "}" id = false /\
  exists rest, s = Placeholder.render id +:+ rest.
Proof.
  unfold Placeholder.match_at.
  destruct (PyStr.startswith Placeholder.opening s) eqn:Hopen; [|done].
  apply startswith_split in Hopen.
  set (body := PyStr.drop (String.length Placeholder.opening) s) in *.
  pose proof (take_id_no_brace body) as Hno.
  destruct (Placeholder.take_id body) as [|x id'] eqn:Hid; [done|].
  destruct (PyStr.drop (String.length (String x id')) body) as [|y rest] eqn:Hrest;
    [done|].
  intros [= <-]. split; [done|]. split; [done|].
  exists rest. rewrite Hopen. unfold Placeholder.render. rewrite !append_assoc.
  f_equal.
  assert (forall b, Placeholder.take_id b +:+
            PyStr.drop (String.length (Placeholder.take_id b)) b = b) as Hsplit.
  { clear. induction b as [|c b IH]; [done|]. cbn [Placeholder.take_id].
    destruct (Ascii.eqb c "}"); [done|].
    cbn [String.length PyStr.drop]. by rewrite append_cons, IH. }
  assert (forall b c r,
            PyStr.drop (String.length (Placeholder.take_id b)) b = String c r ->
            c = "}"%char) as Hbrace.
  { clear. induction b as [|c b IH]; [done|]. cbn [Placeholder.take_id].
    intros c' r. destruct (Ascii.eqb c "}") eqn:Hc; cbn [String.length PyStr.drop].
    - intros [= <- _]. by apply Ascii.eqb_eq.
    - apply IH. }
  specialize (Hsplit body). rewrite Hid in Hsplit.
  pose proof (Hbrace body y rest) as Hy. rewrite Hid in Hy.
  rewrite (Hy Hrest) in Hrest. rewrite Hrest in Hsplit.
  symmetry. exact Hsplit.
Qed.

End StringFacts.

Module PlaceholderFacts.

Import StringFacts.

Lemma render_cons (id rest : string) :
  Placeholder.render id +:+ rest
    = String "$" ("{monitor:" +:+ id +:+ "}" +:+ rest).
Proof. unfold Placeholder.render, Placeholder.opening. by rewrite !append_assoc. Qed.

Lemma length_render (id : string) :
  String.length (Placeholder.render id) = Placeholder.match_len id.
Proof.
  unfold Placeholder.render, Placeholder.match_len.
  rewrite !length_append. simpl. lia.
Qed.

Lemma drop_add (a b : nat) (s : string) :
  PyStr.drop (a + b) s = PyStr.drop b (PyStr.drop a s).
Proof.
  revert s. induction a as [|a IH]; intros s; [by rewrite drop_0|].
  destruct s as [|x s]; simpl; [by destruct b|apply IH].
Qed.

(** What is left of [render id +:+ rest] after its first byte and the
    remaining bytes of the match. *)
Lemma drop_match (id rest tail : string) (c : ascii) :
  Placeholder.render id +:+ rest = String c tail ->
  PyStr.drop (Placeholder.match_len id - 1) tail = rest.
Proof.
  intros Hs.
  pose proof (drop_append (Placeholder.render id) rest) as Hdrop.
  rewrite length_render, Hs in Hdrop.
  unfold Placeholder.match_len in *. simpl in *.
  by rewrite ?Nat.sub_0_r.
Qed.

Lemma findall_from_nil (s : string) (k : nat) :
  Placeholder.findall_from 0 s = [] -> Placeholder.findall_from k s = [].
Proof.
  revert k. induction s as [|x s IH]; intros k; [done|].
  cbn [Placeholder.findall_from].
  destruct (Placeholder.match_at (String x s)); [done|].
  intros Hs. destruct k as [|k]; [done|]. by apply IH.
Qed.

Lemma findall_from_occurs (k : nat) (s id : string) :
  id ∈ Placeholder.findall_from k s ->
  id ≠ "" /\ PyStr.mem "}" id = false /\
  exists before after, s = before +:+ Placeholder.render id +:+ after.
Proof.
  revert k. induction s as [|x s IH]; intros k; [by intros ?%elem_of_nil|].
  cbn [Placeholder.findall_from].
  assert (forall k', id ∈ Placeholder.findall_from k' s ->
            id ≠ "" /\ PyStr.mem "}" id = false /\
            exists before after,
              String x s = before +:+ Placeholder.render id +:+ after) as Hrec.
  { intros k' Hin. destruct (IH k' Hin) as (Hne & Hid & before & after & ->).
    split; [done|]. split; [done|]. by exists (String x before), after. }
  destruct k as [|k]; [|apply Hrec].
  destruct (Placeholder.match_at (String x s)) as [id'|] eqn:Hm; [|apply Hrec].
  intros [->|Hin]%elem_of_cons; [|by apply (Hrec _ Hin)].
  destruct (match_at_some _ _ Hm) as (Hne & Hid & rest & Hs).
  split; [done|]. split; [done|]. exists "", rest. by rewrite append_nil.
Qed.

End PlaceholderFacts.

Section Scanning.

Import StringFacts PlaceholderFacts.

(** X5. Every id that [re.findall] captures is non-empty, holds no ["}"],
    and its placeholder occurs in the condition. *)
Theorem findall_ids_occur (s id : string) :
  id ∈ Placeholder.findall s ->
  id ≠ "" /\ PyStr.mem "}" id = false /\
  exists before after, s = before +:+ Placeholder.render id +:+ after.
Proof. apply findall_from_occurs. Qed.

(** X6. A placeholder at the head of a string is found first, and the
    search goes on right after its closing brace. *)
Theorem findall_render (id rest : string) :
  id ≠ "" -> PyStr.mem "}" id = false ->
  Placeholder.findall (Placeholder.render id +:+ rest)
    = id :: Placeholder.findall rest.
Proof.
  intros Hne Hid. unfold Placeholder.findall.
  pose proof (match_at_render id rest Hne Hid) as Hm.
  pose proof (drop_match id rest) as Hdrop.
  rewrite render_cons in Hm, Hdrop |- *.
  cbn [Placeholder.findall_from]. rewrite Hm.
  by rewrite findall_from_drop, (Hdrop _ _ eq_refl).
Qed.

(** X7. Text without a placeholder is not changed by the stripping step. *)
Theorem strip_without_placeholder (s : string) :
  Placeholder.findall s = [] -> Placeholder.strip s = s.
Proof.
  unfold Placeholder.findall, Placeholder.strip.
  induction s as [|x s IH]; [done|].
  cbn [Placeholder.findall_from Placeholder.strip_from].
  destruct (Placeholder.match_at (String x s)); [done|].
  intros Hs. by rewrite (IH Hs).
Qed.

(** A placeholder at the head of a string is removed together with the
    white space that follows it, and stripping goes on after that. *)
Theorem strip_render (id rest : string) :
  id ≠ "" -> PyStr.mem "}" id = false ->
  Placeholder.strip (Placeholder.render id +:+ rest)
    = Placeholder.strip (PyStr.drop (PyStr.ws_run 0 rest) rest).
Proof.
  intros Hne Hid. unfold Placeholder.strip.
  pose proof (match_at_render id rest Hne Hid) as Hm.
  pose proof (drop_match id rest) as Hdrop.
  pose proof (drop_append (Placeholder.render id) rest) as Hall.
  rewrite length_render in Hall.
  rewrite render_cons in Hm, Hdrop, Hall |- *.
  cbn [Placeholder.strip_from]. rewrite Hm. cbv zeta. rewrite Hall.
  rewrite strip_from_drop.
  replace (Placeholder.match_len id + PyStr.ws_run 0 rest - 1)
    with ((Placeholder.match_len id - 1) + PyStr.ws_run 0 rest)
    by (unfold Placeholder.match_len; simpl; lia).
  by rewrite drop_add, (Hdrop _ _ eq_refl).
Qed.

(** X8. A placeholder at the head of a condition, with the white space
    after it, leaves no mark on the boundary line. *)
Theorem boundary_drops_leading_placeholder (id rest : string) :
  id ≠ "" -> PyStr.mem "}" id = false ->
  parse_condition_to_boundary (Placeholder.render id +:+ rest)
    = parse_condition_to_boundary (PyStr.drop (PyStr.ws_run 0 rest) rest).
Proof.
  intros Hne Hid. unfold parse_condition_to_boundary.
  by rewrite (strip_render id rest Hne Hid).
Qed.

(** X4. Replacing [" or "] by [" or "] and [" and "] by [" and "] changes
    nothing: the normalisation before [eval] only rewrites [" || "] and
    [" && "]. *)
Theorem normalize_operators_rewrites_symbols (s : string) :
  normalize_operators s
    = PyStr.replace " && " " and " (PyStr.replace " || " " or " s).
Proof. unfold normalize_operators. by rewrite !replace_same. Qed.

End Scanning.

Section Coverage.

Context {RuleId : Type} `{Countable RuleId}.
Context {Value : Type} `{PyRuntime Value}.

Implicit Types (env : Env RuleId Value) (rule : AlertRule RuleId).
Implicit Types (st : gmap RuleId AlertState) (tr : list (event RuleId)).

Import StringFacts.

(** *** The evaluator in closed form *)

Lemma evaluate_expression_closed (e : string) st :
  evaluate_expression (RuleId := RuleId) e st =
    if all_safe e then
      match py_eval (normalize_operators e) with
      | Ok b => (Ok b, st, [Eval (normalize_operators e)])
      | Raise x =>
          (Ok false, st,
           [Eval (normalize_operators e);
            Log ERROR (LogErrorEvaluating (normalize_operators e) x)])
      end
    else (Ok false, st, [Log ERROR (LogUnsafeCondition e)]).
Proof.
  unfold evaluate_expression, try_except, bind, emit, lift, log, ret.
  destruct (all_safe e); simpl; [|done].
  by destruct (py_eval (normalize_operators e)).
Qed.

Lemma evaluate_condition_closed env rule st :
  exists tr, only_logs tr /\
    evaluate_condition env rule st =
      match candidate_expression env rule with
      | Some c =>
          (outcome (evaluate_expression (RuleId := RuleId) c st), st,
           EvaluateCondition (rule_id rule)
             :: tr ++ trace_of (evaluate_expression (RuleId := RuleId) c st))
      | None => (Ok false, st, EvaluateCondition (rule_id rule) :: tr ++ [])
      end.
Proof.
  unfold evaluate_condition, candidate_expression.
  destruct (Placeholder.findall (condition rule)) as [|m refs].
  - exists [Log WARNING (LogNoReferences (condition rule))].
    split; [by repeat constructor|done].
  - destruct (substitute_refs_run env (m :: refs) (condition rule))
      as (r & tr & Hlogs & Hrun).
    exists tr. split; [done|].
    unfold bind, emit, ret. rewrite !Hrun, outcome_mk.
    destruct r as [c|]; [|done].
    rewrite evaluate_expression_closed.
    destruct (all_safe c); [|done].
    by destruct (py_eval (normalize_operators c)).
Qed.

Lemma evaluate_condition_evals env rule st :
  evals (trace_of (evaluate_condition env rule st)) =
    match candidate_expression env rule with
    | Some c => if all_safe c then [normalize_operators c] else []
    | None => []
    end.
Proof.
  destruct (evaluate_condition_closed env rule st) as (tr & Hlogs & ->).
  apply only_logs_silent in Hlogs as (Hev & _ & _).
  destruct (candidate_expression env rule) as [c|];
    rewrite trace_of_mk; simpl; rewrite evals_app, Hev; [|done].
  rewrite evaluate_expression_closed.
  destruct (all_safe c); [|done].
  by destruct (py_eval (normalize_operators c)).
Qed.

Lemma triggered_has_candidate env rule st :
  outcome (evaluate_condition env rule st) = Ok true ->
  exists c, candidate_expression env rule = Some c.
Proof.
  destruct (evaluate_condition_closed env rule st) as (tr & _ & ->).
  destruct (candidate_expression env rule) as [c|]; [by exists c|].
  by rewrite outcome_mk.
Qed.


(** X2. When [eval] raises on a candidate that passed validation, the
    exception is caught: the evaluator returns [False], logs the error and
    leaves the alert states alone. *)
Theorem eval_error_is_not_triggering env rule st c (e : exn) :
  candidate_expression env rule = Some c ->
  all_safe c = true ->
  py_eval (normalize_operators c) = Raise e ->
  outcome (evaluate_condition env rule st) = Ok false /\
  states_after (evaluate_condition env rule st) = st /\
  evals (trace_of (evaluate_condition env rule st)) = [normalize_operators c] /\
  last (trace_of (evaluate_condition env rule st))
    = Some (Log ERROR (LogErrorEvaluating (normalize_operators c) e)).
Proof.
  intros Hc Hsafe Hraise.
  pose proof (evaluate_condition_evals env rule st) as Hevals.
  destruct (evaluate_condition_closed env rule st) as (tr & _ & Hrun).
  rewrite Hc in Hrun, Hevals. rewrite Hsafe in Hevals.
  rewrite evaluate_expression_closed, Hsafe, Hraise in Hrun.
  rewrite outcome_mk, trace_of_mk in Hrun. rewrite Hevals, Hrun.
  rewrite outcome_mk, states_after_mk, trace_of_mk.
  split; [done|]. split; [done|]. split; [done|].
  by rewrite app_comm_cons, last_app.
Qed.

Lemma mem_alphabet (c : ascii) :
  PyStr.mem c safe_chars = true -> PyStr.mem c eval_alphabet = true.
Proof.
  change eval_alphabet with (safe_chars +:+ "and").
  rewrite mem_append. by intros ->.
Qed.

Lemma normalize_operators_alphabet (c : string) :
  all_safe c = true ->
  PyStr.forallb (fun x => PyStr.mem x eval_alphabet) (normalize_operators c) = true.
Proof.
  intros Hsafe. apply (forallb_impl _ _ _ mem_alphabet) in Hsafe.
  unfold normalize_operators, PyStr.replace.
  repeat (apply forallb_replace_from; [|by vm_compute]). done.
Qed.

(** X3. [eval] is called at most once per evaluation, and every character
    of the string it receives is in [safe_chars] or is one of [a], [n],
    [d], the letters the normalisation writes. *)
Theorem eval_sees_only_whitelisted_characters env rule st :
  length (evals (trace_of (evaluate_condition env rule st))) <= 1 /\
  forall e,
    e ∈ evals (trace_of (evaluate_condition env rule st)) ->
    PyStr.forallb (fun x => PyStr.mem x eval_alphabet) e = true.
Proof.
  rewrite evaluate_condition_evals.
  destruct (candidate_expression env rule) as [c|]; simpl.
  - destruct (all_safe c) eqn:Hsafe; simpl.
    + split; [lia|]. intros e ->%list_elem_of_singleton.
      by apply normalize_operators_alphabet.
    + split; [lia|]. by intros e ?%elem_of_nil.
  - split; [lia|]. by intros e ?%elem_of_nil.
Qed.


(** *** Dispatch *)

Lemma check_rule_sent env rule st title message :
  outcome (evaluate_condition env rule st) = Ok true ->
  eligible env rule st ->
  format_alert_message env rule = Ok (title, message) ->
  send_alert (pushover_service env) message title (level rule) monitors_url
    = Ok true ->
  exists tr,
    sends tr = [] /\
    check_rule env rule st =
      (Ok tt,
       <[rule_id rule := {| last_notified := Some (utcnow env (rule_id rule));
                            is_active := Some true |}]> st,
       tr ++ [Log INFO (LogTriggered (rule_name rule));
              SendAlert (rule_id rule) message title (level rule) monitors_url;
              Log INFO (LogSent (rule_name rule))]).
Proof.
  intros Hev Hel Hfmt Hsend.
  destruct (check_rule_triggered env rule st Hev) as (tr & Hs & _ & ->).
  rewrite (handle_sent _ _ _ _ _ Hel Hfmt Hsend).
  rewrite !outcome_mk, !states_after_mk, !trace_of_mk. by exists tr.
Qed.

(** X10. When a triggered rule passes the cooldown check and [send_alert]
    accepts the message, the rule's entry becomes
    [{'last_notified': now, 'is_active': True}], no other entry changes,
    and that one call was the only one. *)
Theorem successful_dispatch_records_now env rule st title message :
  outcome (evaluate_condition env rule st) = Ok true ->
  eligible env rule st ->
  format_alert_message env rule = Ok (title, message) ->
  send_alert (pushover_service env) message title (level rule) monitors_url
    = Ok true ->
  outcome (check_rule env rule st) = Ok tt /\
  states_after (check_rule env rule st)
    = <[rule_id rule := {| last_notified := Some (utcnow env (rule_id rule));
                           is_active := Some true |}]> st /\
  sends (trace_of (check_rule env rule st))
    = [SendAlert (rule_id rule) message title (level rule) monitors_url].
Proof.
  intros Hev Hel Hfmt Hsend.
  destruct (check_rule_sent env rule st title message Hev Hel Hfmt Hsend)
    as (tr & Hs & ->).
  rewrite !outcome_mk, !states_after_mk, !trace_of_mk.
  by rewrite sends_app, Hs.
Qed.

(** X11. After a successful dispatch, a later check of the same rule
    whose condition is still true sends nothing and changes nothing while
    the seconds elapsed on the clock, as the float [total_seconds()]
    returns, are less than the cooldown, and sends again (the formatter
    returning) once they are not.  For an advance of the clock from 0 to
    2^34 seconds the float test is the exact comparison of the elapsed
    microseconds with the cooldown. *)
Theorem dispatch_starts_cooldown env1 env2 rule st title message :
  outcome (evaluate_condition env1 rule st) = Ok true ->
  eligible env1 rule st ->
  format_alert_message env1 rule = Ok (title, message) ->
  send_alert (pushover_service env1) message title (level rule) monitors_url
    = Ok true ->
  outcome (evaluate_condition env2 rule st) = Ok true ->
  let st1 := states_after (check_rule env1 rule st) in
  let elapsed := (utcnow env2 (rule_id rule) - utcnow env1 (rule_id rule))%Z in
  let cooling :=
    in_cooldown (utcnow env2 (rule_id rule)) (utcnow env1 (rule_id rule))
      (cooldown_seconds rule) in
  (cooling = true ->
   sends (trace_of (check_rule env2 rule st1)) = [] /\
   states_after (check_rule env2 rule st1) = st1) /\
  (cooling = false ->
   forall title2 message2,
     format_alert_message env2 rule = Ok (title2, message2) ->
     sends (trace_of (check_rule env2 rule st1))
       = [SendAlert (rule_id rule) message2 title2 (level rule) monitors_url]) /\
  (PyFloat.exact_span elapsed ->
   (cooling = true <-> (elapsed < cooldown_seconds rule * 1000000)%Z) /\
   (cooling = false <-> (cooldown_seconds rule * 1000000 <= elapsed)%Z)).
Proof.
  intros Hev1 Hel Hfmt Hsend Hev2. cbv zeta.
  destruct (check_rule_sent env1 rule st title message Hev1 Hel Hfmt Hsend)
    as (tr & _ & ->).
  rewrite states_after_mk.
  set (st1 := <[rule_id rule := _]> st).
  assert (last_notified_of st1 (rule_id rule)
            = Some (utcnow env1 (rule_id rule))) as Hlast
    by apply last_notified_of_insert.
  pose proof (evaluate_condition_any_state env2 rule st st1 _ Hev2) as Hev2'.
  split; [|split].
  - intros Hlt.
    destruct (check_rule_suppressed env2 rule st1 _ Hev2' Hlast Hlt)
      as (_ & Hs & Hsame). done.
  - intros Hge title2 message2 Hfmt2.
    apply (check_rule_dispatches env2 rule st1 title2 message2 Hev2'); [|done].
    unfold eligible. by rewrite Hlast.
  - intros Hspan. split; [by apply in_cooldown_lt | by apply in_cooldown_ge].
Qed.

(** X12. When the message of a triggered, cooldown-eligible rule cannot be
    formatted, [send_alert] is not called and the alert states are left
    alone; the loop logs the error for that rule and returns normally. *)
Theorem format_failure_sends_nothing env rule st (e : exn) :
  outcome (evaluate_condition env rule st) = Ok true ->
  eligible env rule st ->
  format_alert_message env rule = Raise e ->
  outcome (check_rule env rule st) = Raise e /\
  outcome (check_rule_guarded env rule st) = Ok tt /\
  states_after (check_rule_guarded env rule st) = st /\
  sends (trace_of (check_rule_guarded env rule st)) = [] /\
  last (trace_of (check_rule_guarded env rule st))
    = Some (Log ERROR (LogErrorCheckingRule (rule_name rule) e)).
Proof.
  intros Hev Hel Hfmt.
  destruct (check_rule_triggered env rule st Hev) as (tr & Hs & _ & Hrun).
  rewrite (handle_format_raises _ _ _ _ Hel Hfmt) in Hrun.
  rewrite outcome_mk, states_after_mk, trace_of_mk in Hrun.
  assert (outcome (check_rule env rule st) = Raise e) as Hraise by by rewrite Hrun.
  split; [done|].
  rewrite (check_rule_guarded_raised env rule st e Hraise), Hrun.
  rewrite outcome_mk, !states_after_mk, !trace_of_mk.
  split; [done|]. split; [done|]. split.
  - by rewrite !sends_app, Hs.
  - by rewrite last_app.
Qed.

(** X13. A rule whose condition is false and that has no entry, or an entry
    that is not active, is left alone: nothing is sent and the alert
    states do not change. *)
Theorem false_condition_on_inactive_rule_is_noop env rule st :
  outcome (evaluate_condition env rule st) = Ok false ->
  (forall entry, st !! rule_id rule = Some entry -> is_active entry ≠ Some true) ->
  outcome (check_rule env rule st) = Ok tt /\
  states_after (check_rule env rule st) = st /\
  sends (trace_of (check_rule env rule st)) = [].
Proof.
  intros Hev Hinactive.
  destruct (check_rule_not_triggered env rule st Hev) as (tr & Hs & _ & ->).
  destruct (st !! rule_id rule) as [[last [[]|]]|] eqn:Hst;
    rewrite ?outcome_mk, ?states_after_mk, ?trace_of_mk, ?sends_app, ?Hs;
    try done.
  by destruct (Hinactive _ eq_refl).
Qed.

(** X9. A rule whose condition triggered always gets the two-line message
    for its first referenced monitor: the formatter returns that monitor's
    name as title and the value line followed by the boundary line, unless
    the value cannot be formatted; it never falls back to ["Alert"] or to
    ["No value available"]. *)
Theorem triggered_rule_message env rule st :
  outcome (evaluate_condition env rule st) = Ok true ->
  exists m refs monitor v,
    Placeholder.findall (condition rule) = m :: refs /\
    query_monitor (db env) m = Some monitor /\
    (value <$> query_latest_value (db env) m) = Some (Some v) /\
    format_alert_message env rule =
      match py_format_f v (decimal_places monitor) with
      | Ok value_str =>
          Ok (monitor_name monitor,
              "当前: " +:+ (value_str +:+ unit_suffix monitor) +:+ newline
                +:+ "边界: " +:+ parse_condition_to_boundary (condition rule))
      | Raise e => Raise e
      end.
Proof.
  intros Hev. apply triggered_has_candidate in Hev as (c & Hc).
  apply candidate_expression_run in Hc as (m & refs & tr & Hrefs & _ & Hrun).
  specialize (Hrun ∅). cbn [substitute_refs] in Hrun.
  unfold format_alert_message. rewrite Hrefs. revert Hrun.
  unfold bind, log, emit, ret.
  destruct (query_monitor (db env) m) as [monitor|] eqn:Hmon; [|intros [=]].
  destruct (query_latest_value (db env) m) as [[[v|] t]|] eqn:Hval;
    [|intros [=]|intros [=]].
  intros _. exists m, refs, monitor, v.
  rewrite Hmon, Hval. repeat split.
Qed.

(** *** What a cycle can do to the alert states *)

Lemma check_rule_guarded_states env rule st :
  let st' := states_after (check_rule_guarded env rule st) in
  st' = st \/
  (exists last,
     st !! rule_id rule = Some {| last_notified := last; is_active := Some true |} /\
     st' = <[rule_id rule := {| last_notified := last; is_active := Some false |}]> st) \/
  st' = <[rule_id rule := {| last_notified := Some (utcnow env (rule_id rule));
                             is_active := Some true |}]> st.
Proof.
  destruct (check_rule_classified env rule st) as (tr & _ & _ & Hends).
  unfold check_rule_guarded, try_except, log, emit. cbv zeta.
  inversion Hends; unfold states_after; simpl; eauto.
Qed.

Lemma for_each_preserves (P : gmap RuleId AlertState -> Prop) env rules st :
  (forall rule st, P st -> P (states_after (check_rule_guarded env rule st))) ->
  P st -> P (states_after (for_each (check_rule_guarded env) rules st)).
Proof.
  intros Hstep. revert st. induction rules as [|rule rules IH]; intros st Hst; [done|].
  rewrite for_each_cons. cbv zeta. rewrite states_after_mk. by apply IH, Hstep.
Qed.

Lemma run_preserves (P : gmap RuleId AlertState -> Prop) env st :
  (forall rule st, P st -> P (states_after (check_rule_guarded env rule st))) ->
  P st -> P (states_after (run env st)).
Proof.
  intros Hstep Hst. destruct (is_configured (pushover_service env)) eqn:Hconf.
  - rewrite (run_configured env st Hconf). cbv zeta. rewrite states_after_mk.
    by apply for_each_preserves.
  - by rewrite (run_not_configured env st Hconf).
Qed.

Lemma run_cycles_preserves (P : gmap RuleId AlertState -> Prop)
    (envs : list (Env RuleId Value)) st :
  (forall env rule st, P st -> P (states_after (check_rule_guarded env rule st))) ->
  P st -> P (run_cycles envs st).1.
Proof.
  intros Hstep. revert st. induction envs as [|env envs IH]; intros st Hst; [done|].
  simpl. specialize (IH (states_after (run env st))).
  destruct (run_cycles envs (states_after (run env st))) as [st' history].
  apply IH, run_preserves; [apply Hstep|done].
Qed.

(** X16. A cycle never removes an entry from the alert states. *)
Theorem entries_are_never_deleted env st (k : RuleId) :
  is_Some (st !! k) -> is_Some (states_after (run env st) !! k).
Proof.
  apply (run_preserves (fun st => is_Some (st !! k))).
  intros rule st' Hk.
  destruct (check_rule_guarded_states env rule st') as [->|[(last & _ & ->)| ->]];
    [done| |]; destruct (decide (rule_id rule = k)) as [->|Hne];
    rewrite ?lookup_insert_eq, ?lookup_insert_ne by done; done.
Qed.

(** X17. In every state the alert states can reach from the empty dict,
    each entry holds both keys: a timestamp and a flag. *)
Theorem reachable_entries_are_complete (envs : list (Env RuleId Value))
    (k : RuleId) entry :
  (run_cycles envs ∅).1 !! k = Some entry ->
  exists t active,
    entry = {| last_notified := Some t; is_active := Some active |}.
Proof.
  revert k entry.
  apply (run_cycles_preserves
           (fun st => forall k entry, st !! k = Some entry ->
              exists t active,
                entry = {| last_notified := Some t; is_active := Some active |})).
  - intros env rule st Hst k entry.
    destruct (check_rule_guarded_states env rule st)
      as [->|[(last & Hold & ->)| ->]]; [apply Hst| |];
      (destruct (decide (rule_id rule = k)) as [->|Hne];
       [rewrite lookup_insert_eq|rewrite lookup_insert_ne by done; apply Hst]).
    + intros [= <-]. destruct (Hst _ _ Hold) as (t & active & [= -> _]). eauto.
    + intros [= <-]. eauto.
  - intros k entry. by rewrite lookup_empty.
Qed.

(** *** What a cycle does per rule *)

Lemma check_rule_guarded_sends env rule st (k : RuleId) :
  length (sends_for k (trace_of (check_rule_guarded env rule st))) <= 1.
Proof.
  destruct (check_rule_classified env rule st) as (tr & Hs & _ & Hends).
  pose proof (sends_for_nil_of_sends k tr Hs) as Hk.
  unfold check_rule_guarded, try_except, log, emit. cbv zeta.
  inversion Hends as [tr' Hlogs Heq|last Hst Heq|e Heq|title message Hsend Heq
                     |title message lvl msg Heq];
    unfold trace_of; simpl; rewrite ?sends_for_app, ?Hk; simpl.
  - apply only_logs_silent in Hlogs as (_ & Hs' & _).
    rewrite (sends_for_nil_of_sends k tr' Hs'). simpl. lia.
  - lia.
  - lia.
  - destruct (decide (rule_id rule = k)); simpl; lia.
  - destruct (decide (rule_id rule = k)); simpl; lia.
Qed.

Lemma for_each_sends_once env rules st (k : RuleId) :
  NoDup (rule_id <$> rules) ->
  length (sends_for k (trace_of (for_each (check_rule_guarded env) rules st))) <= 1.
Proof.
  revert st. induction rules as [|rule rules IH]; intros st Hnodup; [simpl; lia|].
  rewrite fmap_cons in Hnodup. apply NoDup_cons in Hnodup as [Hfresh Hnodup].
  rewrite for_each_cons. cbv zeta. rewrite trace_of_mk, sends_for_app, length_app.
  destruct (decide (k = rule_id rule)) as [->|Hne].
  - destruct (for_each_guarded env rules
                (states_after (check_rule_guarded env rule st)))
      as (_ & _ & Hframe & _).
    rewrite (proj2 (Hframe _ Hfresh)). simpl.
    pose proof (check_rule_guarded_sends env rule st (rule_id rule)). lia.
  - destruct (check_rule_guarded_step env rule st) as (_ & _ & Hframe & _).
    rewrite (proj2 (Hframe k Hne)). simpl. by apply IH.
Qed.

(** X14. With distinct rule ids, a cycle calls [send_alert] at most once
    for any rule. *)
Theorem at_most_one_send_per_rule_per_cycle env st (k : RuleId) :
  NoDup (rule_id <$> enabled_rules env) ->
  length (sends_for k (trace_of (run env st))) <= 1.
Proof.
  intros Hnodup. destruct (is_configured (pushover_service env)) eqn:Hconf.
  - rewrite (run_configured env st Hconf). cbv zeta. rewrite trace_of_mk.
    simpl. rewrite sends_for_app, length_app. simpl.
    pose proof (for_each_sends_once env (enabled_rules env) st k Hnodup). lia.
  - rewrite (run_not_configured env st Hconf). simpl. lia.
Qed.

(** X15. A rule id that belongs to no enabled rule is out of a cycle's
    reach: its condition is not evaluated, [send_alert] is not called for
    it and its entry is what it was. *)
Theorem cycle_touches_only_enabled_rules env st (k : RuleId) :
  k ∉ rule_id <$> enabled_rules env ->
  (k ∉ evaluated (trace_of (run env st))) /\
  sends_for k (trace_of (run env st)) = [] /\
  states_after (run env st) !! k = st !! k.
Proof.
  intros Hk. destruct (is_configured (pushover_service env)) eqn:Hconf.
  - rewrite (run_configured env st Hconf). cbv zeta.
    rewrite states_after_mk, trace_of_mk.
    destruct (for_each_guarded env (enabled_rules env) st)
      as (_ & Hev & Hframe & _).
    destruct (Hframe k Hk) as [Hst Hs].
    split; [|split]; [| |done].
    + simpl. rewrite evaluated_app, Hev. simpl. by rewrite app_nil_r.
    + simpl. by rewrite sends_for_app, Hs.
  - rewrite (run_not_configured env st Hconf).
    split; [|done]. simpl. apply not_elem_of_nil.
Qed.

(** X18. When the transport is not configured the cycle is skipped: no
    condition is evaluated, nothing reaches [eval] or [send_alert], and
    the alert states are what they were. *)
Theorem unconfigured_cycle_is_skipped env st :
  is_configured (pushover_service env) = false ->
  outcome (run env st) = Ok tt /\
  states_after (run env st) = st /\
  evaluated (trace_of (run env st)) = [] /\
  evals (trace_of (run env st)) = [] /\
  sends (trace_of (run env st)) = [].
Proof. intros Hconf. by rewrite (run_not_configured env st Hconf). Qed.

(** X19. Whatever the rules do, [run] returns normally and the last thing
    it does is close the database session. *)
Theorem run_returns_and_closes_session env st :
  outcome (run env st) = Ok tt /\
  last (trace_of (run env st)) = Some DbClose.
Proof.
  destruct (is_configured (pushover_service env)) eqn:Hconf.
  - rewrite (run_configured env st Hconf). cbv zeta.
    rewrite outcome_mk, trace_of_mk. split; [done|].
    by rewrite app_comm_cons, last_app.
  - by rewrite (run_not_configured env st Hconf).
Qed.

End Coverage.

(** ** Closed instances of the further properties *)

Module CoverageInstances.

Import Examples.
Local Open Scope Z_scope.

Lemma findall_ids_occur_witness :
  "m1" ≠ "" /\ PyStr.mem "}" "m1" = false /\
  exists before after, band = before +:+ Placeholder.render "m1" +:+ after.
Proof.
  apply (findall_ids_occur band "m1"). vm_compute. apply list_elem_of_here.
Defined.

Lemma findall_render_witness :
  Placeholder.findall (Placeholder.render "m1" +:+ " > 50 or ${monitor:m2} < 30")
    = "m1" :: Placeholder.findall " > 50 or ${monitor:m2} < 30".
Proof.
  apply (findall_render "m1" " > 50 or ${monitor:m2} < 30");
    [discriminate | vm_compute; reflexivity].
Defined.

Lemma strip_without_placeholder_witness :
  Placeholder.strip "${monitor:} > 50" = "${monitor:} > 50".
Proof.
  apply (strip_without_placeholder "${monitor:} > 50"). vm_compute; reflexivity.
Defined.

Lemma boundary_drops_leading_placeholder_witness :
  parse_condition_to_boundary (Placeholder.render "m1" +:+ "  >= 100")
    = parse_condition_to_boundary ">= 100".
Proof.
  apply (boundary_drops_leading_placeholder "m1" "  >= 100");
    [discriminate | vm_compute; reflexivity].
Defined.

Lemma eval_error_is_not_triggering_witness :
  let env := world (Some 62) [] (Ok true) 0 in
  let dangling := rule "r1" "${monitor:m1} >" 60 in
  outcome (evaluate_condition env dangling ∅) = Ok false /\
  states_after (evaluate_condition env dangling ∅) = ∅ /\
  evals (trace_of (evaluate_condition env dangling ∅)) = ["62.0 >"] /\
  last (trace_of (evaluate_condition env dangling ∅))
    = Some (Log ERROR (LogErrorEvaluating "62.0 >" "SyntaxError: invalid syntax")).
Proof.
  cbv zeta.
  apply (eval_error_is_not_triggering (world (Some 62) [] (Ok true) 0)
           (rule "r1" "${monitor:m1} >" 60) ∅ "62.0 >"
           "SyntaxError: invalid syntax"); vm_compute; reflexivity.
Defined.

Lemma successful_dispatch_records_now_witness :
  let env := world (Some 62) [] (Ok true) (seconds 61) in
  outcome (check_rule env (rule "r1" band 60) (notified 0 false)) = Ok tt /\
  states_after (check_rule env (rule "r1" band 60) (notified 0 false))
    = <["r1" := {| last_notified := Some (seconds 61); is_active := Some true |}]>
        (notified 0 false) /\
  sends (trace_of (check_rule env (rule "r1" band 60) (notified 0 false)))
    = [band_alert].
Proof.
  cbv zeta.
  apply (successful_dispatch_records_now
           (world (Some 62) [] (Ok true) (seconds 61)) (rule "r1" band 60)
           (notified 0 false) "DRIFT" band_body); vm_compute; reflexivity.
Defined.

Lemma dispatch_starts_cooldown_witness :
  let fired := states_after (check_rule (world (Some 62) [] (Ok true) 0)
                               (rule "r1" band 60) ∅) in
  (sends (trace_of (check_rule (world (Some 62) [] (Ok true) (seconds 30))
                      (rule "r1" band 60) fired)) = [] /\
   states_after (check_rule (world (Some 62) [] (Ok true) (seconds 30))
                   (rule "r1" band 60) fired) = fired) /\
  sends (trace_of (check_rule (world (Some 62) [] (Ok true) (seconds 61))
                     (rule "r1" band 60) fired)) = [band_alert] /\
  (in_cooldown (seconds 30) 0 60 = true <-> seconds 30 - 0 < 60 * 1000000).
Proof.
  cbv zeta. split; [|split].
  - refine (proj1 (dispatch_starts_cooldown
                     (world (Some 62) [] (Ok true) 0)
                     (world (Some 62) [] (Ok true) (seconds 30))
                     (rule "r1" band 60) ∅ "DRIFT" band_body _ _ _ _ _) _);
      vm_compute; try reflexivity; try exact I.
  - refine (proj1 (proj2 (dispatch_starts_cooldown
                            (world (Some 62) [] (Ok true) 0)
                            (world (Some 62) [] (Ok true) (seconds 61))
                            (rule "r1" band 60) ∅ "DRIFT" band_body _ _ _ _ _)) _
              "DRIFT" band_body _);
      vm_compute; try reflexivity; try exact I.
  - refine (proj1 (proj2 (proj2 (dispatch_starts_cooldown
                                   (world (Some 62) [] (Ok true) 0)
                                   (world (Some 62) [] (Ok true) (seconds 30))
                                   (rule "r1" band 60) ∅ "DRIFT" band_body
                                   _ _ _ _ _)) _)).
    1-5: vm_compute; try reflexivity; try exact I.
    vm_compute. split; [discriminate|reflexivity].
Defined.

Lemma format_failure_sends_nothing_witness :
  let env := world (Some 62) [] (Ok true) 0 in
  let broken := rule "r0" "${monitor:bad} > 50" 60 in
  outcome (check_rule env broken ∅) = Raise format_error /\
  outcome (check_rule_guarded env broken ∅) = Ok tt /\
  states_after (check_rule_guarded env broken ∅) = ∅ /\
  sends (trace_of (check_rule_guarded env broken ∅)) = [] /\
  last (trace_of (check_rule_guarded env broken ∅))
    = Some (Log ERROR (LogErrorCheckingRule "rule r0" format_error)).
Proof.
  cbv zeta.
  apply (format_failure_sends_nothing (world (Some 62) [] (Ok true) 0)
           (rule "r0" "${monitor:bad} > 50" 60) ∅ format_error);
    vm_compute; try reflexivity; try exact I.
Defined.

Lemma false_condition_on_inactive_rule_is_noop_witness :
  let env := world (Some 40) [] (Ok true) 0 in
  outcome (check_rule env (rule "r1" band 60) (notified 0 false)) = Ok tt /\
  states_after (check_rule env (rule "r1" band 60) (notified 0 false))
    = notified 0 false /\
  sends (trace_of (check_rule env (rule "r1" band 60) (notified 0 false))) = [].
Proof.
  cbv zeta.
  apply (false_condition_on_inactive_rule_is_noop
           (world (Some 40) [] (Ok true) 0) (rule "r1" band 60) (notified 0 false)).
  - vm_compute; reflexivity.
  - intros entry Hentry. vm_compute in Hentry. injection Hentry as <-. discriminate.
Defined.

Lemma triggered_rule_message_witness :
  let env := world (Some 62) [] (Ok true) 0 in
  exists m refs monitor v,
    Placeholder.findall (condition (rule "r1" band 60)) = m :: refs /\
    query_monitor (db env) m = Some monitor /\
    (value <$> query_latest_value (db env) m) = Some (Some v) /\
    format_alert_message env (rule "r1" band 60) =
      match py_format_f v (decimal_places monitor) with
      | Ok value_str =>
          Ok (monitor_name monitor,
              "当前: " +:+ (value_str +:+ unit_suffix monitor) +:+ newline
                +:+ "边界: "
                +:+ parse_condition_to_boundary (condition (rule "r1" band 60)))
      | Raise e => Raise e
      end.
Proof.
  cbv zeta.
  apply (triggered_rule_message (world (Some 62) [] (Ok true) 0)
           (rule "r1" band 60) ∅).
  vm_compute; reflexivity.
Defined.

Lemma entries_are_never_deleted_witness :
  is_Some (states_after (run (world (Some 40) [rule "r1" band 60] (Ok true) 0)
                           (notified 0 true)) !! "r1").
Proof.
  apply (entries_are_never_deleted
           (world (Some 40) [rule "r1" band 60] (Ok true) 0) (notified 0 true) "r1").
  vm_compute. by eexists.
Defined.

Lemma reachable_entries_are_complete_witness :
  exists t active,
    {| last_notified := Some (seconds 5); is_active := Some true |}
      = {| last_notified := Some t; is_active := Some active |}.
Proof.
  apply (reachable_entries_are_complete
           [world (Some 62) [rule "r1" band 60] (Ok true) (seconds 5)] "r1").
  vm_compute; reflexivity.
Defined.

Lemma at_most_one_send_per_rule_per_cycle_witness :
  Nat.le
    (length (sends_for "r1"
               (trace_of (run (world (Some 62) two_rules (Ok true) 0) ∅)))) 1.
Proof.
  apply (at_most_one_send_per_rule_per_cycle
           (world (Some 62) two_rules (Ok true) 0) ∅ "r1").
  vm_compute. apply NoDup_cons. split.
  - intros Hin. apply list_elem_of_singleton in Hin. discriminate.
  - apply NoDup_singleton.
Defined.

Lemma cycle_touches_only_enabled_rules_witness :
  let env := world (Some 62) [disabled_rule; rule "r1" band 60] (Ok true) 0 in
  let st : gmap string AlertState :=
    {[ "r9" := {| last_notified := Some 0; is_active := Some true |} ]} in
  ("r9" ∉ evaluated (trace_of (run env st))) /\
  sends_for "r9" (trace_of (run env st)) = [] /\
  states_after (run env st) !! "r9" = st !! "r9".
Proof.
  cbv zeta.
  apply (cycle_touches_only_enabled_rules
           (world (Some 62) [disabled_rule; rule "r1" band 60] (Ok true) 0)
           {[ "r9" := {| last_notified := Some 0; is_active := Some true |} ]} "r9").
  vm_compute. intros Hin. apply list_elem_of_singleton in Hin. discriminate.
Defined.

Lemma unconfigured_cycle_is_skipped_witness :
  let env := offline_world [rule "r1" band 60] in
  outcome (run env (notified 0 true)) = Ok tt /\
  states_after (run env (notified 0 true)) = notified 0 true /\
  evaluated (trace_of (run env (notified 0 true))) = [] /\
  evals (trace_of (run env (notified 0 true))) = [] /\
  sends (trace_of (run env (notified 0 true))) = [].
Proof.
  cbv zeta.
  apply (unconfigured_cycle_is_skipped (offline_world [rule "r1" band 60])
           (notified 0 true)).
  reflexivity.
Defined.

End CoverageInstances.
